(** * go-retry: the retry loop, its backoff strategies and the fatal wrapper

    A shallow embedding of package [retry] (retry.go): the four backoff
    strategies, [capDelay], [EndRetry] / [checkFatal] and the loop [Do],
    followed by the properties of the specification.

    Conventions.
    - Go's [int] (on a 64-bit target) and [time.Duration] (an [int64] count
      of nanoseconds) are 64-bit two's-complement integers: they are
      modelled as [Z] and every arithmetic result is reduced with [wrap64].
    - The [error] interface is [option error_value]; [None] is Go's [nil].
    - A call that panics yields [None] in a strategy and [Panicked] in [Do].
    - The operation [f func() error] is a closure over private state: a
      function from its state to a result and a new state.
    - [for { ... }] may run forever, so the loop takes fuel; [OutOfFuel]
      means that the loop was still running when the fuel ran out. *)

From Stdlib Require Import ZArith List String Bool Lia.
Import ListNotations.
Open Scope Z_scope.

(** ** Machine integers *)

Definition int := Z.
Definition Duration := Z.

Definition min_int : Z := - 2 ^ 63.
Definition max_int : Z := 2 ^ 63 - 1.

(** Reduction into the signed 64-bit range. *)
Definition wrap64 (z : Z) : Z := (z + 2 ^ 63) mod 2 ^ 64 - 2 ^ 63.

Definition in_int (z : Z) : Prop := min_int <= z <= max_int.

Definition add64 (a b : Z) : Z := wrap64 (a + b).
Definition mul64 (a b : Z) : Z := wrap64 (a * b).

(** [x << s] on int64: a negative count panics, bits shifted past bit 63
    are lost (so a count of 64 or more gives 0). *)
Definition shl64 (x s : Z) : option Z :=
  if s <? 0 then None else Some (wrap64 (Z.shiftl x s)).

Definition Nanosecond : Duration := 1.
Definition Millisecond : Duration := 1000000.
Definition Second : Duration := 1000000000.

(** ** Errors *)

(** The error values that can reach [checkFatal]: a plain error
    ([errors.New]), an error with an [Unwrap() error] method (what
    [fmt.Errorf] builds for [%w]; a hand-written wrapper may unwrap to
    nil), and [*fatal] of this package. An error is thus a chain of
    [Unwrap] links; errors that unwrap to several errors ([errors.Join])
    or that carry an [As] method of their own are not modelled. *)
#[warnings="-register-all"]
Inductive error_value : Type :=
| errorString (s : string)
| wrapError (msg : string) (err : option error_value)
| fatalPtr (cause : option error_value).

Definition error := option error_value.

(** [type fatal struct { cause error }] *)
Record fatal : Type := { cause : error }.

(** [func EndRetry(err error) error] *)
Definition EndRetry (err : error) : error := Some (fatalPtr err).

(** [func (f *fatal) Unwrap() error] *)
Definition Unwrap (f : fatal) : error := cause f.

(** [func (f *fatal) Error() string]: calls [Error] on the cause, which
    panics on a nil cause. *)
Fixpoint Error (e : error_value) : option string :=
  match e with
  | errorString s => Some s
  | wrapError msg _ => Some msg
  | fatalPtr (Some c) => Error c
  | fatalPtr None => None
  end.

(** [errors.As(err, &fatalErr)] with [fatalErr *fatal]: follows [Unwrap]
    from [err] and stops at the first value of type [*fatal]. *)
Fixpoint As_chain (e : error_value) : option fatal :=
  match e with
  | fatalPtr c => Some {| cause := c |}
  | wrapError _ (Some inner) => As_chain inner
  | wrapError _ None => None
  | errorString _ => None
  end.

Definition errors_As (err : error) : option fatal :=
  match err with
  | None => None
  | Some e => As_chain e
  end.

(** [func checkFatal(err error) error] *)
Definition checkFatal (err : error) : error :=
  match errors_As err with
  | Some fatalErr => Unwrap fatalErr
  | None => None
  end.

(** ** Delay capping *)

(** [func capDelay(delay, max time.Duration) time.Duration] *)
Definition capDelay (delay max : Duration) : Duration :=
  if (0 <? max) && (max <? delay) then max else delay.

(** ** Strategies *)

(** [type retryStrategy interface]. The receiver is threaded through
    [GetDelay] because [RandomizedBackoff] advances its random source. *)
Class retryStrategy (T : Type) : Type := {
  GetDelay : T -> int -> option (Duration * T);
  GetAttempts : T -> int
}.

Record LinearBackoff : Type := NewLinearBackoff {
  lin_retryDelay : Duration;
  lin_maxDelay : Duration;
  lin_attempts : int
}.

Definition LinearBackoff_GetDelay (b : LinearBackoff) (attempt : int) : Duration :=
  capDelay (mul64 attempt (lin_retryDelay b)) (lin_maxDelay b).

#[export] Instance LinearBackoff_strategy : retryStrategy LinearBackoff := {
  GetDelay b attempt := Some (LinearBackoff_GetDelay b attempt, b);
  GetAttempts b := lin_attempts b
}.

Record ExponentialBackoff : Type := NewExponentialBackoff {
  exp_retryDelay : Duration;
  exp_maxDelay : Duration;
  exp_attempts : int
}.

Definition ExponentialBackoff_GetDelay (b : ExponentialBackoff) (attempt : int)
  : option Duration :=
  match shl64 1 attempt with
  | Some p => Some (capDelay (mul64 p (exp_retryDelay b)) (exp_maxDelay b))
  | None => None
  end.

#[export] Instance ExponentialBackoff_strategy : retryStrategy ExponentialBackoff := {
  GetDelay b attempt :=
    match ExponentialBackoff_GetDelay b attempt with
    | Some d => Some (d, b)
    | None => None
    end;
  GetAttempts b := exp_attempts b
}.

Record ConstantBackoff : Type := NewConstantBackoff {
  const_retryDelay : Duration;
  const_attempts : int
}.

Definition ConstantBackoff_GetDelay (b : ConstantBackoff) (_ : int) : Duration :=
  const_retryDelay b.

#[export] Instance ConstantBackoff_strategy : retryStrategy ConstantBackoff := {
  GetDelay b attempt := Some (ConstantBackoff_GetDelay b attempt, b);
  GetAttempts b := const_attempts b
}.

(** [math/rand] is not part of the package: the generator is a parameter.
    [Intn src n] is the method [Intn] of [rand.Rand]: it panics when
    [n <= 0] and otherwise returns a number and the advanced source. *)
Section Randomized.
Variable Rand : Type.
Variable Intn : Rand -> int -> option (int * Rand).

Record RandomizedBackoff : Type := MkRandomizedBackoff {
  rnd_retryDelay : Duration;
  rnd_maxDelay : Duration;
  rnd_attempts : int;
  rnd_rand : Rand
}.

Definition RandomizedBackoff_GetDelay (b : RandomizedBackoff) (attempt : int)
  : option (Duration * RandomizedBackoff) :=
  match Intn (rnd_rand b) (add64 attempt 1) with
  | Some (r, src) =>
      Some (capDelay (mul64 r (rnd_retryDelay b)) (rnd_maxDelay b),
            MkRandomizedBackoff (rnd_retryDelay b) (rnd_maxDelay b)
                                (rnd_attempts b) src)
  | None => None
  end.

#[local] Instance RandomizedBackoff_strategy : retryStrategy RandomizedBackoff := {
  GetDelay := RandomizedBackoff_GetDelay;
  GetAttempts b := rnd_attempts b
}.
End Randomized.

#[export] Existing Instance RandomizedBackoff_strategy.

(** The strategy of the package's tests. *)
Record mockStrategy : Type := {
  mock_delays : list Duration;
  mock_attempts : int
}.

Definition mockStrategy_GetDelay (m : mockStrategy) (attempt : int) : option Duration :=
  if attempt <? Z.of_nat (List.length (mock_delays m)) then
    if attempt <? 0 then None
    else Some (nth (Z.to_nat attempt) (mock_delays m) 0)
  else Some 0.

#[export] Instance mockStrategy_strategy : retryStrategy mockStrategy := {
  GetDelay m attempt :=
    match mockStrategy_GetDelay m attempt with
    | Some d => Some (d, m)
    | None => None
    end;
  GetAttempts m := mock_attempts m
}.

(** ** The retry loop *)

(** What [Do] does to the outside: it sleeps and it calls the operation. *)
Inductive event : Type :=
| EvSleep (d : Duration)
| EvCall (result : error).

(** [func() error] closing over a state of type [St]. *)
Definition operation (St : Type) : Type := St -> error * St.

Inductive outcome (A : Type) : Type :=
| Returned (a : A)
| Panicked
| OutOfFuel.
Arguments Returned {A} a.
Arguments Panicked {A}.
Arguments OutOfFuel {A}.

Section Loop.
Context {St T : Type} `{retryStrategy T}.

(** The operation's state, the strategy, and the events so far, the
    most recent first. *)
Record world : Type := {
  op_state : St;
  strategy : T;
  history : list event
}.

(** [func shouldStopRetry(attempts, maxAttempts int) bool] *)
Definition shouldStopRetry (attempts maxAttempts : int) : bool :=
  negb (maxAttempts =? -1) && (maxAttempts <=? attempts).

(** [f()] *)
Definition call (f : operation St) (w : world) : error * world :=
  let '(err, s) := f (op_state w) in
  (err, {| op_state := s; strategy := strategy w;
           history := EvCall err :: history w |}).

(** [func attemptRetry(f func() error, rs retryStrategy, attempts int) error] *)
Definition attemptRetry (f : operation St) (attempts : int) (w : world)
  : option (error * world) :=
  if 0 <? attempts then
    match GetDelay (strategy w) attempts with
    | Some (d, rs) =>
        Some (call f {| op_state := op_state w; strategy := rs;
                        history := EvSleep d :: history w |})
    | None => None
    end
  else Some (call f w).

(** The [for] loop of [Do], entered with the current [attempts]. *)
Fixpoint Do_loop (fuel : nat) (f : operation St) (maxAttempts attempts : int)
         (w : world) : outcome (int * error * world) :=
  match fuel with
  | O => OutOfFuel
  | S fuel' =>
      match attemptRetry f attempts w with
      | None => Panicked
      | Some (None, w') => Returned (add64 attempts 1, None, w')
      | Some (Some e, w') =>
          match checkFatal (Some e) with
          | Some fatalErr => Returned (add64 attempts 1, Some fatalErr, w')
          | None =>
              let attempts' := add64 attempts 1 in
              if shouldStopRetry attempts' maxAttempts
              then Returned (attempts', Some e, w')
              else Do_loop fuel' f maxAttempts attempts' w'
          end
      end
  end.

(** [func Do(f func() error, rs retryStrategy) (attempts int, err error)] *)
Definition Do (fuel : nat) (f : operation St) (s : St) (rs : T)
  : outcome (int * error * world) :=
  let maxAttempts := GetAttempts rs in
  Do_loop fuel f maxAttempts 0
          {| op_state := s; strategy := rs; history := [] |}.

(** Number of invocations of the operation recorded in a history. *)
Fixpoint calls (h : list event) : nat :=
  match h with
  | [] => O
  | EvCall _ :: h' => S (calls h')
  | EvSleep _ :: h' => calls h'
  end.

(** Result of the most recent invocation. *)
Fixpoint last_result (h : list event) : option error :=
  match h with
  | [] => None
  | EvCall r :: _ => Some r
  | EvSleep _ :: h' => last_result h'
  end.

(** State of the operation after [i] invocations from state [s]. *)
Fixpoint state_after (f : operation St) (s : St) (i : nat) : St :=
  match i with
  | O => s
  | S i' => state_after f (snd (f s)) i'
  end.

(** What invocation number [i + 1] returns. *)
Definition nth_result (f : operation St) (s : St) (i : nat) : error :=
  fst (f (state_after f s i)).

(** [GetDelay] returns (does not panic) for every attempt index in
    [lo, hi). *)
Definition delays_defined (lo hi : Z) : Prop :=
  forall (rs : T) (a : Z), lo <= a < hi -> GetDelay rs a <> None.

(** [w'] is [w] after one more invocation of the operation [f]. *)
Definition invoked (f : operation St) (w w' : world) : Prop :=
  op_state w' = snd (f (op_state w)) /\
  calls (history w') = S (calls (history w)) /\
  last_result (history w') = Some (fst (f (op_state w))).
End Loop.

Arguments world : clear implicits.

(** A retryable error: non-nil, and no [*fatal] anywhere on its chain. *)
Definition retryable (err : error) : Prop :=
  err <> None /\ errors_As err = None.

(** [wraps_fatal e c]: [e] is a [*fatal] with cause [c] under zero or more
    layers of [Unwrap]-style wrapping. *)
Inductive wraps_fatal : error_value -> error -> Prop :=
| wraps_here (c : error) : wraps_fatal (fatalPtr c) c
| wraps_layer (msg : string) (e : error_value) (c : error) :
    wraps_fatal e c -> wraps_fatal (wrapError msg (Some e)) c.

(** ** Reading a history *)

(** Results of the invocations recorded in a history, the most recent
    first. *)
Fixpoint results (h : list event) : list error :=
  match h with
  | [] => []
  | EvCall r :: h' => r :: results h'
  | EvSleep _ :: h' => results h'
  end.

(** Durations slept, the most recent first. *)
Fixpoint sleeps (h : list event) : list Duration :=
  match h with
  | [] => []
  | EvCall _ :: h' => sleeps h'
  | EvSleep d :: h' => d :: sleeps h'
  end.

(** The two tests of [Do] on a result, [err == nil] and
    [checkFatal(err) != nil], both fail: the loop goes on to the budget. *)
Definition is_retried (r : error) : bool :=
  match r with
  | None => false
  | Some _ => match checkFatal r with
              | Some _ => false
              | None => true
              end
  end.

(** A random source for the examples: a linear congruential generator
    in the place of [math/rand]. *)
Definition lcg_Intn (src : Z) (n : int) : option (int * Z) :=
  if n <=? 0 then None
  else Some (src mod n,
             (6364136223846793005 * src + 1442695040888963407) mod 2 ^ 64).

(** A history, the most recent event first, in which invocations and
    sleeps alternate, beginning and ending with an invocation: every
    sleep stands between two invocations and every two consecutive
    invocations have one sleep between them. *)
Fixpoint alternating (h : list event) : bool :=
  match h with
  | [EvCall _] => true
  | EvCall _ :: EvSleep _ :: h' => alternating h'
  | _ => false
  end.

(** The history, the most recent event first, of the invocations that
    returned [rs] (the most recent first) when the sleep just before
    invocation [i + 1] is [dly i]: nothing before the first invocation. *)
Fixpoint timeline (dly : Z -> Duration) (rs : list error) : list event :=
  match rs with
  | [] => []
  | r :: rs' =>
      EvCall r ::
        match rs' with
        | [] => []
        | _ :: _ =>
            EvSleep (dly (Z.of_nat (List.length rs'))) :: timeline dly rs'
        end
  end.

(** For the examples: [ExponentialBackoff] with a [GetDelay] that panics
    on every attempt index below 1. *)
Definition ExponentialBackoff_from_one : retryStrategy ExponentialBackoff := {|
  GetDelay b attempt :=
    if attempt <? 1 then None
    else match ExponentialBackoff_GetDelay b attempt with
         | Some d => Some (d, b)
         | None => None
         end;
  GetAttempts b := exp_attempts b
|}.

(** ** Values and operations used in the examples *)

Definition temporary : error := Some (errorString "temporary error").
Definition fatal_cause : error_value := errorString "fatal error".

(** [retry.NewLinearBackoff(500*time.Millisecond, 2*time.Second, 5)] *)
Definition readme_strategy : LinearBackoff :=
  NewLinearBackoff (500 * Millisecond) (2 * Second) 5.

(** An operation that returns the same result at every invocation. *)
Definition always (r : error) : operation unit := fun s => (r, s).

(** An operation that replays a list of results and then succeeds. *)
Definition script : operation (list error) :=
  fun s => match s with
           | [] => (None, [])
           | r :: s' => (r, s')
           end.

(** The closure of the README's second case: it counts its invocations
    and ends the retries at the third. *)
Definition readme_case2 : operation int :=
  fun count =>
    let count := add64 count 1 in
    if count =? 3 then (EndRetry (Some fatal_cause), count)
    else (temporary, count).

(** * Properties *)

(** ** 64-bit arithmetic *)

Lemma wrap64_id (z : Z) : in_int z -> wrap64 z = z.
Proof.
  unfold in_int, min_int, max_int, wrap64. intros Hz.
  rewrite Z.mod_small by lia. lia.
Qed.

Lemma wrap64_range (z : Z) : in_int (wrap64 z).
Proof.
  unfold in_int, min_int, max_int, wrap64.
  pose proof (Z.mod_pos_bound (z + 2 ^ 63) (2 ^ 64) ltac:(lia)). lia.
Qed.

Lemma wrap64_shift (z k : Z) : wrap64 (z + k * 2 ^ 64) = wrap64 z.
Proof.
  unfold wrap64.
  replace (z + k * 2 ^ 64 + 2 ^ 63) with (z + 2 ^ 63 + k * 2 ^ 64) by ring.
  now rewrite Z_mod_plus_full.
Qed.

Lemma wrap64_decomp (z : Z) : exists k, wrap64 z = z + k * 2 ^ 64.
Proof.
  exists (- ((z + 2 ^ 63) / 2 ^ 64)). unfold wrap64.
  rewrite Z.mod_eq by lia. ring.
Qed.

Lemma mul64_wrap_l (a b : Z) : mul64 (wrap64 a) b = wrap64 (a * b).
Proof.
  unfold mul64. destruct (wrap64_decomp a) as [k ->].
  replace ((a + k * 2 ^ 64) * b) with (a * b + (k * b) * 2 ^ 64) by ring.
  apply wrap64_shift.
Qed.

Lemma add64_succ (a : Z) : 0 <= a -> a < max_int -> add64 a 1 = a + 1.
Proof.
  intros H0 H1. apply wrap64_id. unfold in_int, min_int, max_int in *. lia.
Qed.

Lemma shl64_pow (a : Z) : 0 <= a -> shl64 1 a = Some (wrap64 (2 ^ a)).
Proof.
  intros Ha. unfold shl64.
  destruct (a <? 0) eqn:E; [apply Z.ltb_lt in E; lia|].
  now rewrite Z.shiftl_1_l.
Qed.

(** ** The error chain *)

Lemma wraps_fatal_As (e : error_value) (c : error) :
  wraps_fatal e c -> As_chain e = Some {| cause := c |}.
Proof. induction 1; simpl; auto. Qed.

Lemma As_chain_spec (e : error_value) :
  match As_chain e with
  | Some f => wraps_fatal e (cause f)
  | None => forall c, ~ wraps_fatal e c
  end.
Proof.
  revert e. fix IH 1. intros [s | msg [inner |] | c]; simpl.
  - intros c Hc. inversion Hc.
  - specialize (IH inner). destruct (As_chain inner) as [f |].
    + now constructor.
    + intros c Hc. inversion Hc; subst. now apply (IH c).
  - intros c Hc. inversion Hc.
  - constructor.
Qed.

Lemma checkFatal_wraps (e : error_value) (c : error) :
  wraps_fatal e c -> checkFatal (Some e) = c.
Proof.
  intros Hw. unfold checkFatal. simpl. now rewrite (wraps_fatal_As e c Hw).
Qed.

Lemma checkFatal_no_fatal (e : error_value) :
  (forall c, ~ wraps_fatal e c) -> checkFatal (Some e) = None.
Proof.
  intros Hn. unfold checkFatal. simpl.
  pose proof (As_chain_spec e) as Hs.
  destruct (As_chain e) as [f |]; [exfalso; exact (Hn _ Hs) | reflexivity].
Qed.

Lemma retryable_checkFatal (err : error) :
  retryable err -> exists e, err = Some e /\ checkFatal (Some e) = None.
Proof.
  intros [Hnil Has]. destruct err as [e |]; [|congruence].
  exists e. split; [reflexivity|]. unfold checkFatal. now rewrite Has.
Qed.

Lemma retryable_no_fatal (e : error_value) :
  retryable (Some e) <-> forall c, ~ wraps_fatal e c.
Proof.
  unfold retryable. simpl. pose proof (As_chain_spec e) as Hs. split.
  - intros [_ Has]. now rewrite Has in Hs.
  - intros Hn. split; [congruence|].
    destruct (As_chain e) as [f |]; [exfalso; exact (Hn _ Hs) | reflexivity].
Qed.

(** ** One iteration of the loop *)

Section LoopFacts.
Context {St T : Type} `{retryStrategy T}.
Variable f : operation St.

Lemma call_invoked (w : world St T) :
  fst (call f w) = fst (f (op_state w)) /\ invoked f w (snd (call f w)).
Proof.
  unfold call, invoked. destruct (f (op_state w)) as [err s]. simpl. auto.
Qed.

Lemma attemptRetry_inv (a : Z) (w w' : world St T) (r : error) :
  attemptRetry f a w = Some (r, w') ->
  r = fst (f (op_state w)) /\ invoked f w w'.
Proof.
  unfold attemptRetry. destruct (0 <? a).
  - destruct (GetDelay (strategy w) a) as [[d rs] |]; [|discriminate].
    intros E. injection E as E.
    pose proof (call_invoked
      {| op_state := op_state w; strategy := rs;
         history := EvSleep d :: history w |}) as [H1 H2].
    rewrite E in H1, H2. simpl in H1, H2. auto.
  - intros E. injection E as E.
    pose proof (call_invoked w) as [H1 H2]. rewrite E in H1, H2. auto.
Qed.

Lemma attemptRetry_defined (a : Z) (w : world St T) :
  (0 < a -> GetDelay (strategy w) a <> None) ->
  exists w', attemptRetry f a w = Some (fst (f (op_state w)), w')
             /\ invoked f w w'.
Proof.
  intros Hd. destruct (attemptRetry f a w) as [[r w'] |] eqn:E.
  - destruct (attemptRetry_inv _ _ _ _ E) as [-> Hi]. eauto.
  - exfalso. unfold attemptRetry in E.
    destruct (0 <? a) eqn:Ea.
    + apply Z.ltb_lt in Ea.
      destruct (GetDelay (strategy w) a) as [[d rs] |]; [discriminate|].
      now apply Hd.
    + discriminate.
Qed.

(** The operation succeeds: [Do] returns at once. *)
Lemma Do_loop_success (fuel : nat) (m a : Z) (w : world St T) :
  (0 < a -> GetDelay (strategy w) a <> None) ->
  fst (f (op_state w)) = None ->
  exists w', Do_loop (S fuel) f m a w = Returned (add64 a 1, None, w')
             /\ invoked f w w'.
Proof.
  intros Hd Hr. destruct (attemptRetry_defined a w Hd) as (w' & E & Hi).
  exists w'. split; [|exact Hi]. simpl. rewrite E, Hr. reflexivity.
Qed.

(** The operation returns an error that [checkFatal] unwraps to a
    non-nil cause: [Do] returns at once with the cause. *)
Lemma Do_loop_fatal (fuel : nat) (m a : Z) (w : world St T)
      (e c : error_value) :
  (0 < a -> GetDelay (strategy w) a <> None) ->
  fst (f (op_state w)) = Some e ->
  checkFatal (Some e) = Some c ->
  exists w', Do_loop (S fuel) f m a w = Returned (add64 a 1, Some c, w')
             /\ invoked f w w'.
Proof.
  intros Hd Hr Hc. destruct (attemptRetry_defined a w Hd) as (w' & E & Hi).
  exists w'. split; [|exact Hi].
  cbn [Do_loop]. rewrite E, Hr, Hc. reflexivity.
Qed.

(** The operation returns an error that [checkFatal] maps to nil: the
    counter is incremented and the budget is consulted. *)
Lemma Do_loop_retry (fuel : nat) (m a : Z) (w : world St T)
      (e : error_value) :
  (0 < a -> GetDelay (strategy w) a <> None) ->
  fst (f (op_state w)) = Some e ->
  checkFatal (Some e) = None ->
  exists w', invoked f w w' /\
    Do_loop (S fuel) f m a w =
      if shouldStopRetry (add64 a 1) m
      then Returned (add64 a 1, Some e, w')
      else Do_loop fuel f m (add64 a 1) w'.
Proof.
  intros Hd Hr Hc. destruct (attemptRetry_defined a w Hd) as (w' & E & Hi).
  exists w'. split; [exact Hi|].
  cbn [Do_loop]. rewrite E, Hr, Hc. reflexivity.
Qed.

Lemma shouldStopRetry_unlimited (a : Z) : shouldStopRetry a (-1) = false.
Proof. reflexivity. Qed.

Lemma shouldStopRetry_below (a m : Z) : a < m -> shouldStopRetry a m = false.
Proof.
  intros Hlt. unfold shouldStopRetry.
  destruct (m <=? a) eqn:E; [apply Z.leb_le in E; lia|].
  now rewrite andb_false_r.
Qed.

Lemma shouldStopRetry_reached (a m : Z) :
  m <> -1 -> m <= a -> shouldStopRetry a m = true.
Proof.
  intros Hm Hle. unfold shouldStopRetry.
  apply Z.eqb_neq in Hm. apply Z.leb_le in Hle. now rewrite Hm, Hle.
Qed.

Lemma shouldStopRetry_false (a m : Z) :
  shouldStopRetry a m = false -> m = -1 \/ a < m.
Proof.
  unfold shouldStopRetry. intros E.
  destruct (m =? -1) eqn:E1; [apply Z.eqb_eq in E1; auto|].
  destruct (m <=? a) eqn:E2; [discriminate|].
  apply Z.leb_gt in E2. auto.
Qed.

(** ** A run of retryable failures *)

(** Starting from attempt counter [a], [r] consecutive retryable
    failures that the budget [m] lets through take the loop to counter
    [a + r], with [r] more invocations recorded. *)
Lemma Do_loop_failures (r : nat) :
  forall (fuel : nat) (m a : Z) (w : world St T),
    0 <= a -> a + Z.of_nat r <= max_int ->
    delays_defined 1 (a + Z.of_nat r) ->
    (forall i, (i < r)%nat -> retryable (nth_result f (op_state w) i)) ->
    (forall i, (1 <= i <= r)%nat ->
               shouldStopRetry (a + Z.of_nat i) m = false) ->
    exists w',
      Do_loop (r + fuel) f m a w = Do_loop fuel f m (a + Z.of_nat r) w'
      /\ op_state w' = state_after f (op_state w) r
      /\ calls (history w') = (calls (history w) + r)%nat
      /\ last_result (history w') =
           match r with
           | O => last_result (history w)
           | S i => Some (nth_result f (op_state w) i)
           end.
Proof.
  induction r as [| r IH]; intros fuel m a w Ha Hmax Hd Hf Hs.
  - exists w. rewrite Z.add_0_r, Nat.add_0_r. simpl. auto.
  - destruct (retryable_checkFatal _ (Hf O ltac:(lia))) as (e & He & Hc).
    unfold nth_result in He. simpl in He.
    destruct (Do_loop_retry (r + fuel) m a w e) as (w1 & Hi & E); auto.
    { intros Hpos. apply Hd. lia. }
    rewrite add64_succ in E by lia.
    pose proof (Hs 1%nat ltac:(lia)) as Hs1. simpl in Hs1.
    rewrite Hs1 in E.
    destruct Hi as (Hst & Hcalls & Hlast).
    destruct (IH fuel m (a + 1) w1) as (w' & E' & Hst' & Hcalls' & Hlast').
    + lia.
    + lia.
    + intros rs x Hx. apply Hd. lia.
    + intros i Hi. rewrite Hst. apply (Hf (S i)). lia.
    + intros i Hi.
      replace (a + 1 + Z.of_nat i) with (a + Z.of_nat (S i)) by lia.
      apply Hs. lia.
    + exists w'. cbn [Nat.add]. rewrite E, E'.
      replace (a + 1 + Z.of_nat r) with (a + Z.of_nat (S r)) by lia.
      split; [reflexivity|]. split; [now rewrite Hst', Hst|].
      split; [lia|]. rewrite Hlast'.
      destruct r as [| r'].
      * exact Hlast.
      * unfold nth_result. simpl. now rewrite Hst.
Qed.
End LoopFacts.

(** ** The strategies do not panic inside the loop *)

Lemma LinearBackoff_delays_defined (lo hi : Z) :
  delays_defined (T := LinearBackoff) lo hi.
Proof. intros rs a _. discriminate. Qed.

Lemma ConstantBackoff_delays_defined (lo hi : Z) :
  delays_defined (T := ConstantBackoff) lo hi.
Proof. intros rs a _. discriminate. Qed.

Lemma ExponentialBackoff_delays_defined (hi : Z) :
  delays_defined (T := ExponentialBackoff) 0 hi.
Proof.
  intros rs a [Ha _]. simpl. unfold ExponentialBackoff_GetDelay.
  rewrite shl64_pow by exact Ha. discriminate.
Qed.

Lemma mockStrategy_delays_defined (hi : Z) :
  delays_defined (T := mockStrategy) 0 hi.
Proof.
  intros rs a [Ha _]. simpl. unfold mockStrategy_GetDelay.
  destruct (a <? Z.of_nat (List.length (mock_delays rs))); [|discriminate].
  destruct (a <? 0) eqn:E; [apply Z.ltb_lt in E; lia | discriminate].
Qed.

Lemma RandomizedBackoff_delays_defined
      (Rand : Type) (Intn : Rand -> int -> option (int * Rand)) :
  (forall src n, 0 < n -> Intn src n <> None) ->
  delays_defined (T := RandomizedBackoff Rand) (H := RandomizedBackoff_strategy Rand Intn)
                 0 max_int.
Proof.
  intros HIntn rs a [Ha Hlt]. simpl. unfold RandomizedBackoff_GetDelay.
  rewrite add64_succ by assumption.
  specialize (HIntn (rnd_rand Rand rs) (a + 1) ltac:(lia)).
  destruct (Intn (rnd_rand Rand rs) (a + 1)) as [[r src] |];
    [discriminate | contradiction].
Qed.

Lemma delays_defined_mono {T : Type} `{retryStrategy T} (lo hi lo' hi' : Z) :
  lo <= lo' -> hi' <= hi -> delays_defined lo hi -> delays_defined lo' hi'.
Proof. intros Hlo Hhi Hd rs a Ha. apply Hd. lia. Qed.

Lemma state_after_snoc {St : Type} (f : operation St) (i : nat) :
  forall s, state_after f s (S i) = snd (f (state_after f s i)).
Proof. induction i as [| i IH]; intros s; [reflexivity | apply (IH (snd (f s)))]. Qed.

(** ** Exhaustion of the budget *)

(** With a budget [m] other than -1 and an operation that keeps failing
    retryably, [Do] makes [max m 1] invocations and returns that count
    together with the last error. *)
Lemma Do_exhaustion {St T : Type} `{retryStrategy T}
      (f : operation St) (s : St) (rs : T) (fuel : nat) :
  let m := GetAttempts rs in
  let n := Z.max m 1 in
  m <> -1 -> m <= max_int ->
  (forall i, retryable (nth_result f s i)) ->
  delays_defined 1 n ->
  (Z.to_nat n <= fuel)%nat ->
  exists w,
    Do fuel f s rs = Returned (n, nth_result f s (Z.to_nat n - 1), w)
    /\ op_state w = state_after f s (Z.to_nat n)
    /\ calls (history w) = Z.to_nat n
    /\ last_result (history w) = Some (nth_result f s (Z.to_nat n - 1)).
Proof.
  intros m n Hm Hmax Hf Hd Hfuel.
  set (r := (Z.to_nat n - 1)%nat).
  assert (Hr : Z.of_nat r = n - 1) by (unfold r, n; lia).
  assert (Hn : Z.to_nat n = S r) by (unfold r, n; lia).
  set (w0 := {| op_state := s; strategy := rs; history := [] |} : world St T).
  destruct (Do_loop_failures f r (fuel - r) m 0 w0)
    as (w1 & E1 & Hst1 & Hcalls1 & _).
  - lia.
  - unfold n, max_int in *. lia.
  - eapply delays_defined_mono; [| | exact Hd]; lia.
  - intros i _. apply Hf.
  - intros i Hi. apply shouldStopRetry_below. unfold n in Hr. lia.
  - destruct (retryable_checkFatal _ (Hf r)) as (e & He & Hc).
    destruct (Do_loop_retry f (fuel - r - 1) m (Z.of_nat r) w1 e)
      as (w2 & (Hst2 & Hcalls2 & Hlast2) & E2).
    + intros Hpos. apply Hd. lia.
    + unfold nth_result in He. now rewrite Hst1.
    + exact Hc.
    + rewrite add64_succ in E2 by (unfold n, max_int in *; lia).
      rewrite shouldStopRetry_reached in E2 by (unfold n in Hr; lia).
      exists w2. unfold Do. fold m. fold w0.
      replace fuel with (r + (fuel - r))%nat by lia.
      rewrite E1, Z.add_0_l.
      replace (fuel - r)%nat with (S (fuel - r - 1)) by lia.
      rewrite E2, Hn. replace (S r - 1)%nat with r by lia.
      replace (Z.of_nat r + 1) with n by lia.
      rewrite He. split; [reflexivity|].
      split; [now rewrite Hst2, Hst1, state_after_snoc|].
      split; [rewrite Hcalls2, Hcalls1; simpl; lia|].
      rewrite Hlast2, Hst1. unfold nth_result in He. simpl. now rewrite He.
Qed.

(** ** The counter counts invocations *)

(** Whenever the loop returns, the returned count exceeds the counter it
    was entered with by the number of invocations made. The counter is a
    64-bit integer: the statement is for a bounded budget, or for a run of
    fewer than 2^63 iterations. *)
Lemma Do_loop_counts {St T : Type} `{retryStrategy T} (f : operation St) (m : Z) :
  forall (fuel : nat) (a : Z) (w : world St T) (a' : Z) (e : error)
         (w' : world St T),
    Do_loop fuel f m a w = Returned (a', e, w') ->
    0 <= a -> m <= max_int ->
    (m <> -1 /\ (a < m \/ a = 0)) \/ a + Z.of_nat fuel <= max_int ->
    exists k : nat,
      (1 <= k)%nat /\ calls (history w') = (calls (history w) + k)%nat
      /\ a' = a + Z.of_nat k.
Proof.
  induction fuel as [| fuel IH]; intros a w a' e w' E Ha Hm Hb;
    [discriminate|].
  assert (Hsucc : add64 a 1 = a + 1).
  { apply add64_succ; [exact Ha|]. unfold max_int in *. lia. }
  cbn [Do_loop] in E. rewrite Hsucc in E.
  destruct (attemptRetry f a w) as [[r w1] |] eqn:Ea; [|discriminate].
  destruct (attemptRetry_inv f _ _ _ _ Ea) as (_ & _ & Hcalls & _).
  assert (Hone : forall x y : error,
                 Returned (a + 1, x, w1) = Returned (a', y, w') ->
                 exists k : nat, (1 <= k)%nat
                   /\ calls (history w') = (calls (history w) + k)%nat
                   /\ a' = a + Z.of_nat k).
  { intros x y Ex. injection Ex as <- _ <-. exists 1%nat.
    rewrite Hcalls. repeat split; lia. }
  destruct r as [err |]; [|now apply (Hone None e)].
  destruct (checkFatal (Some err)) as [c |]; [now apply (Hone (Some c) e)|].
  destruct (shouldStopRetry (a + 1) m) eqn:Es; [now apply (Hone (Some err) e)|].
  apply IH in E; [| lia | exact Hm |].
  - destruct E as (k & Hk & Hc & Ha'). exists (S k).
    rewrite Hc, Hcalls. repeat split; lia.
  - destruct Hb as [[Hm1 _] | Hb]; [left | right; lia].
    split; [exact Hm1|]. left.
    destruct (shouldStopRetry_false _ _ Es); [contradiction | assumption].
Qed.

(** ** Reaching invocation [r + 1] *)

(** After [r] retryable failures that the budget lets through, [Do] is
    about to make invocation [r + 1] with the counter at [r]. *)
Lemma Do_after_failures {St T : Type} `{retryStrategy T}
      (f : operation St) (s : St) (rs : T) (r fuel : nat) :
  Z.of_nat r <= max_int ->
  r = O \/ GetAttempts rs = -1 \/ Z.of_nat r < GetAttempts rs ->
  (forall i, (i < r)%nat -> retryable (nth_result f s i)) ->
  delays_defined 1 (Z.of_nat r) ->
  exists w,
    Do (r + fuel) f s rs = Do_loop fuel f (GetAttempts rs) (Z.of_nat r) w
    /\ op_state w = state_after f s r
    /\ calls (history w) = r.
Proof.
  intros Hmax Hb Hf Hd.
  destruct (Do_loop_failures f r fuel (GetAttempts rs) 0
              {| op_state := s; strategy := rs; history := [] |})
    as (w & E & Hst & Hc & _); auto; try lia.
  - intros i Hi. destruct Hb as [-> | [-> | Hb]].
    + lia.
    + apply shouldStopRetry_unlimited.
    + apply shouldStopRetry_below. lia.
  - exists w. unfold Do. rewrite E. auto.
Qed.

(** ** [EndRetry] *)

Lemma checkFatal_EndRetry (c : error) : checkFatal (EndRetry c) = c.
Proof. reflexivity. Qed.

(** An operation that keeps returning [EndRetry(nil)] under the unlimited
    budget: every iteration goes on to the next. *)
Lemma Do_loop_EndRetry_nil_unlimited :
  forall (fuel : nat) (a : Z) (w : world unit ConstantBackoff),
    Do_loop fuel (always (EndRetry None)) (-1) a w = OutOfFuel.
Proof.
  induction fuel as [| fuel IH]; intros a w; [reflexivity|].
  cbn [Do_loop]. unfold attemptRetry.
  destruct (0 <? a); cbn [GetDelay ConstantBackoff_strategy];
    unfold call, always; cbn [op_state strategy history EndRetry checkFatal
                              errors_As As_chain Unwrap cause];
    rewrite shouldStopRetry_unlimited; apply IH.
Qed.

(** ** The README scenario and the package's tests *)

Lemma always_temporary_retryable (i : nat) :
  retryable (nth_result (always temporary) tt i).
Proof. split; [discriminate | reflexivity]. Qed.

(** [TestDo] *)
Example TestDo_success_on_first_attempt :
  exists w, Do 3 (always None) tt {| mock_delays := [0]; mock_attempts := 3 |}
            = Returned (1, None, w).
Proof. eexists. reflexivity. Qed.

Example TestDo_success_after_two_attempts :
  exists w, Do 3 script [Some (errorString "retryable error")]
               {| mock_delays := [Millisecond; Millisecond]; mock_attempts := 3 |}
            = Returned (2, None, w).
Proof. eexists. reflexivity. Qed.

Example TestDo_exhaust_retries :
  exists w, Do 3 (always (Some (errorString "retryable error"))) tt
               {| mock_delays := [Millisecond; Millisecond]; mock_attempts := 2 |}
            = Returned (2, Some (errorString "retryable error"), w).
Proof. eexists. reflexivity. Qed.

Example TestDo_fatal_error_stops_retries :
  exists w, Do 3 (always (EndRetry (Some fatal_cause))) tt
               {| mock_delays := [Millisecond; Millisecond]; mock_attempts := 3 |}
            = Returned (1, Some fatal_cause, w).
Proof. eexists. reflexivity. Qed.

(** [TestCapDelay] *)
Example TestCapDelay :
  capDelay (500 * Millisecond) (1 * Second) = 500 * Millisecond
  /\ capDelay (2 * Second) (1 * Second) = 1 * Second
  /\ capDelay (1 * Second) 0 = 1 * Second.
Proof. repeat split. Qed.

(** [TestFatalError] *)
Example TestFatalError :
  Error (fatalPtr (Some (errorString "fatal error occurred")))
  = Some "fatal error occurred"%string.
Proof. reflexivity. Qed.

(** [Error] on a [*fatal] whose cause is nil panics. *)
Lemma fatal_nil_Error_panics : Error (fatalPtr None) = None.
Proof. reflexivity. Qed.

(** * The claims *)

(** C1. For a strategy with budget [n >= 1] and an operation that returns
    a retryable error at every invocation, [Do] returns [attempts = n] and
    the error of the last invocation, after exactly [n] invocations. The
    budget is an [int], hence at most [max_int]; [delays_defined] says that
    the strategy's [GetDelay] returns on the attempt indices [1 .. n-1]
    (the four strategies of the package do). *)
Theorem Do_attempts_equal_budget {St T : Type} `{retryStrategy T}
        (f : operation St) (s : St) (rs : T) (n : Z) (fuel : nat) :
  GetAttempts rs = n ->
  1 <= n <= max_int ->
  (forall i, retryable (nth_result f s i)) ->
  delays_defined 1 n ->
  (Z.to_nat n <= fuel)%nat ->
  exists w,
    Do fuel f s rs = Returned (n, nth_result f s (Z.to_nat n - 1), w)
    /\ calls (history w) = Z.to_nat n
    /\ last_result (history w) = Some (nth_result f s (Z.to_nat n - 1)).
Proof.
  intros Hn Hrange Hf Hd Hfuel.
  assert (Hmax : Z.max (GetAttempts rs) 1 = n) by lia.
  destruct (Do_exhaustion f s rs fuel) as (w & E & _ & Hc & Hl);
    try rewrite Hmax; try rewrite Hn; auto; try lia.
  exists w. rewrite Hmax in *. auto.
Qed.

Lemma Do_attempts_equal_budget_witness :
  exists w,
    Do 5 (always temporary) tt readme_strategy = Returned (5, temporary, w)
    /\ calls (history w) = 5%nat
    /\ last_result (history w) = Some temporary.
Proof.
  apply (Do_attempts_equal_budget (always temporary) tt readme_strategy 5 5).
  - reflexivity.
  - unfold max_int. lia.
  - exact always_temporary_retryable.
  - apply LinearBackoff_delays_defined.
  - simpl. lia.
Defined.

(** C2 (as amended). The budget caps the total number of invocations, the
    initial one included: for a budget [0 <= n] and an operation that
    always fails retryably, [Do] makes [max n 1] invocations in all, that
    is the initial invocation and [max n 1 - 1] retries. *)
Theorem Do_budget_caps_invocations {St T : Type} `{retryStrategy T}
        (f : operation St) (s : St) (rs : T) (n : Z) (fuel : nat) :
  GetAttempts rs = n ->
  0 <= n <= max_int ->
  (forall i, retryable (nth_result f s i)) ->
  delays_defined 1 n ->
  (Z.to_nat (Z.max n 1) <= fuel)%nat ->
  exists e w,
    Do fuel f s rs = Returned (Z.max n 1, e, w)
    /\ calls (history w) = Z.to_nat (Z.max n 1)
    /\ (calls (history w) - 1)%nat = Z.to_nat (Z.max n 1 - 1).
Proof.
  intros Hn Hrange Hf Hd Hfuel.
  destruct (Do_exhaustion f s rs fuel) as (w & E & _ & Hc & _);
    try rewrite Hn; auto; try lia.
  - intros rs' a Ha. apply Hd. lia.
  - rewrite Hn in *. eexists. exists w.
    split; [exact E|]. split; [exact Hc|]. rewrite Hc. lia.
Qed.

Lemma Do_budget_caps_invocations_witness :
  exists e w,
    Do 2 (always temporary) tt (NewConstantBackoff Millisecond 2)
      = Returned (2, e, w)
    /\ calls (history w) = 2%nat
    /\ (calls (history w) - 1)%nat = 1%nat.
Proof.
  apply (Do_budget_caps_invocations (always temporary) tt
           (NewConstantBackoff Millisecond 2) 2 2).
  - reflexivity.
  - unfold max_int. lia.
  - exact always_temporary_retryable.
  - apply ConstantBackoff_delays_defined.
  - simpl. lia.
Defined.

(** C2 as stated fails: with budget 2 and an operation that always fails
    retryably, [Do] returns after 2 invocations, not after the 2 + 1 that
    "initial attempt plus 2 retries" would make. *)
Lemma budget_two_makes_two_invocations :
  exists w,
    Do 3 (always temporary) tt (NewConstantBackoff Millisecond 2)
      = Returned (2, temporary, w)
    /\ calls (history w) = 2%nat
    /\ calls (history w) <> Z.to_nat (2 + 1).
Proof.
  eexists. split; [reflexivity|]. split; [reflexivity | discriminate].
Qed.



(** C6. With the unlimited budget -1, if the operation fails retryably at
    its first [k - 1] invocations and succeeds at invocation [k], [Do]
    returns [attempts = k] and a nil error after exactly [k] invocations.
    ([k] is compared with an [int], hence at most [max_int].) *)
Theorem Do_unlimited_succeeds_at {St T : Type} `{retryStrategy T}
        (f : operation St) (s : St) (rs : T) (k fuel : nat) :
  GetAttempts rs = -1 ->
  (1 <= k)%nat -> Z.of_nat k <= max_int ->
  (forall i, (i < k - 1)%nat -> retryable (nth_result f s i)) ->
  nth_result f s (k - 1) = None ->
  delays_defined 1 (Z.of_nat k) ->
  (k <= fuel)%nat ->
  exists w,
    Do fuel f s rs = Returned (Z.of_nat k, None, w)
    /\ calls (history w) = k
    /\ last_result (history w) = Some None.
Proof.
  intros Hm Hk Hmax Hf Hok Hd Hfuel.
  destruct (Do_after_failures f s rs (k - 1) (S (fuel - k)))
    as (w1 & E1 & Hst1 & Hc1); auto; try lia.
  { eapply delays_defined_mono; [| | exact Hd]; lia. }
  destruct (Do_loop_success f (fuel - k) (GetAttempts rs)
              (Z.of_nat (k - 1)) w1) as (w2 & E2 & _ & Hc2 & Hl2).
  - intros Hpos. apply Hd. lia.
  - unfold nth_result in Hok. now rewrite Hst1.
  - exists w2. replace fuel with (k - 1 + S (fuel - k))%nat by lia.
    rewrite E1. replace (k - 1 + S (fuel - k) - k)%nat with (fuel - k)%nat by lia.
    rewrite E2, add64_succ by lia.
    replace (Z.of_nat (k - 1) + 1) with (Z.of_nat k) by lia.
    split; [reflexivity|]. split; [lia|].
    rewrite Hl2, Hst1. unfold nth_result in Hok. now rewrite Hok.
Qed.

Lemma Do_unlimited_succeeds_at_witness :
  exists w,
    Do 4 script [temporary; temporary; temporary; None]
       (NewExponentialBackoff (100 * Millisecond) Second (-1))
      = Returned (4, None, w)
    /\ calls (history w) = 4%nat
    /\ last_result (history w) = Some None.
Proof.
  apply (Do_unlimited_succeeds_at script
           [temporary; temporary; temporary; None]
           (NewExponentialBackoff (100 * Millisecond) Second (-1)) 4 4).
  - reflexivity.
  - lia.
  - unfold max_int. lia.
  - intros i Hi.
    assert (Hcases : i = 0%nat \/ i = 1%nat \/ i = 2%nat) by (simpl in Hi; lia).
    destruct Hcases as [-> | [-> | ->]]; (split; [discriminate | reflexivity]).
  - reflexivity.
  - eapply delays_defined_mono;
      [| | apply (ExponentialBackoff_delays_defined 4)]; lia.
  - lia.
Defined.

(** C3 (as amended). If the operation fails retryably at its first
    [j - 1] invocations and returns [EndRetry cause], with a non-nil
    [cause], at invocation [j], and the budget lets invocation [j] happen
    ([j = 1], or the budget is -1, or it is at least [j]), then [Do] stops
    there: it returns [attempts = j] and [cause] itself, after exactly [j]
    invocations. *)
Theorem Do_stops_at_EndRetry {St T : Type} `{retryStrategy T}
        (f : operation St) (s : St) (rs : T) (cause : error_value)
        (j fuel : nat) :
  (1 <= j)%nat -> Z.of_nat j <= max_int ->
  j = 1%nat \/ GetAttempts rs = -1 \/ Z.of_nat j <= GetAttempts rs ->
  (forall i, (i < j - 1)%nat -> retryable (nth_result f s i)) ->
  nth_result f s (j - 1) = EndRetry (Some cause) ->
  delays_defined 1 (Z.of_nat j) ->
  (j <= fuel)%nat ->
  exists w,
    Do fuel f s rs = Returned (Z.of_nat j, Some cause, w)
    /\ calls (history w) = j
    /\ last_result (history w) = Some (EndRetry (Some cause)).
Proof.
  intros Hj Hmax Hb Hf Hend Hd Hfuel.
  destruct (Do_after_failures f s rs (j - 1) (S (fuel - j)))
    as (w1 & E1 & Hst1 & Hc1); auto; try lia.
  { eapply delays_defined_mono; [| | exact Hd]; lia. }
  destruct (Do_loop_fatal f (fuel - j) (GetAttempts rs)
              (Z.of_nat (j - 1)) w1 (fatalPtr (Some cause)) cause)
    as (w2 & E2 & _ & Hc2 & Hl2).
  - intros Hpos. apply Hd. lia.
  - unfold nth_result in Hend. now rewrite Hst1.
  - reflexivity.
  - exists w2. replace fuel with (j - 1 + S (fuel - j))%nat by lia.
    rewrite E1. replace (j - 1 + S (fuel - j) - j)%nat with (fuel - j)%nat by lia.
    rewrite E2, add64_succ by lia.
    replace (Z.of_nat (j - 1) + 1) with (Z.of_nat j) by lia.
    split; [reflexivity|]. split; [lia|].
    rewrite Hl2, Hst1. unfold nth_result in Hend. now rewrite Hend.
Qed.

(** The README's second case: two temporary errors, then [EndRetry] at
    the third invocation, under a budget of 5. *)
Lemma Do_stops_at_EndRetry_witness :
  exists w,
    Do 3 readme_case2 0 readme_strategy = Returned (3, Some fatal_cause, w)
    /\ calls (history w) = 3%nat
    /\ last_result (history w) = Some (EndRetry (Some fatal_cause)).
Proof.
  apply (Do_stops_at_EndRetry readme_case2 0 readme_strategy fatal_cause 3 3).
  - lia.
  - unfold max_int. lia.
  - right. right. simpl. lia.
  - intros i Hi.
    assert (Hcases : i = 0%nat \/ i = 1%nat) by (simpl in Hi; lia).
    destruct Hcases as [-> | ->]; (split; [discriminate | reflexivity]).
  - reflexivity.
  - apply LinearBackoff_delays_defined.
  - lia.
Defined.

(** C3 as stated ("for every budget") fails: under a budget of 2, an
    operation that fails retryably twice and would return [EndRetry cause]
    at its third invocation is invoked only twice, and [Do] returns
    [(2, temporary error)], not [(3, cause)]. *)
Lemma EndRetry_at_third_call_not_reached_with_budget_two :
  let results := [temporary; temporary; EndRetry (Some fatal_cause)] in
  retryable (nth_result script results 0)
  /\ retryable (nth_result script results 1)
  /\ nth_result script results 2 = EndRetry (Some fatal_cause)
  /\ exists w,
       Do 3 script results (NewLinearBackoff (500 * Millisecond) (2 * Second) 2)
         = Returned (2, temporary, w)
       /\ calls (history w) = 2%nat
       /\ (2, temporary) <> (3, Some fatal_cause).
Proof.
  simpl. repeat split; try discriminate.
  eexists. split; [reflexivity|]. split; [reflexivity | discriminate].
Qed.

(** C4. The code at the failing input: the operation returns
    [EndRetry(nil)] at every invocation. [checkFatal] answers nil for the
    wrapper, which [Do] takes for "not fatal". Under a budget of 3 the
    operation is retried until the budget is used up and the wrapper
    itself is returned; under the unlimited budget [Do] never returns. *)
Theorem EndRetry_nil_is_retried :
  checkFatal (EndRetry None) = None
  /\ (exists w,
        Do 3 (always (EndRetry None)) tt (NewConstantBackoff Millisecond 3)
          = Returned (3, EndRetry None, w)
        /\ calls (history w) = 3%nat)
  /\ (forall fuel,
        Do fuel (always (EndRetry None)) tt (NewConstantBackoff Millisecond (-1))
          = OutOfFuel).
Proof.
  split; [reflexivity|]. split.
  - eexists. split; reflexivity.
  - intros fuel. apply Do_loop_EndRetry_nil_unlimited.
Qed.

(** C5. The code at the failing input: the operation returns, at every
    invocation, an error that wraps [EndRetry(nil)] under one layer of
    context. The error wraps a [*fatal] (with cause nil) at depth 1, and
    [checkFatal] finds it, but it answers the nil cause, which [Do] takes
    for "not fatal": under a budget of 3 the operation is invoked three
    times and the error itself is returned. The defect is that of C4. *)
Theorem wrapped_EndRetry_nil_is_retried :
  let e := wrapError "context" (EndRetry None) in
  wraps_fatal e None
  /\ errors_As (Some e) = Some {| cause := None |}
  /\ checkFatal (Some e) = None
  /\ exists w,
       Do 3 (always (Some e)) tt (NewConstantBackoff Millisecond 3)
         = Returned (3, Some e, w)
       /\ calls (history w) = 3%nat.
Proof.
  cbv zeta. split; [repeat constructor|]. split; [reflexivity|].
  split; [reflexivity|]. eexists. split; reflexivity.
Qed.

(** For non-nil causes [checkFatal] follows the whole chain. If [e] is a
    [*fatal] with a non-nil cause [c] under any number of wrapping layers, [checkFatal]
    returns [c], and an iteration of the loop in which the operation
    returns [e] returns [c] at once, with that single invocation; in
    particular [Do] returns [(1, c)] when it is the first. If no [*fatal]
    is on the chain of [e] at any depth, [checkFatal] returns nil. *)
Theorem checkFatal_walks_chain (e : error_value) :
  (forall c : error_value,
     wraps_fatal e (Some c) ->
     checkFatal (Some e) = Some c
     /\ (forall (St T : Type) (H : retryStrategy T) (f : operation St)
                (m a : Z) (w : world St T) (fuel : nat),
           fst (f (op_state w)) = Some e ->
           (0 < a -> GetDelay (strategy w) a <> None) ->
           exists w',
             Do_loop (S fuel) f m a w = Returned (add64 a 1, Some c, w')
             /\ calls (history w') = S (calls (history w)))
     /\ (forall (St T : Type) (H : retryStrategy T) (f : operation St)
                (s : St) (rs : T) (fuel : nat),
           fst (f s) = Some e ->
           exists w',
             Do (S fuel) f s rs = Returned (1, Some c, w')
             /\ calls (history w') = 1%nat))
  /\ ((forall c, ~ wraps_fatal e c) -> checkFatal (Some e) = None).
Proof.
  split; [| apply checkFatal_no_fatal].
  intros c Hw. pose proof (checkFatal_wraps e (Some c) Hw) as Hc.
  split; [exact Hc|]. split.
  - intros St T H f m a w fuel Hr Hd.
    destruct (Do_loop_fatal f fuel m a w e c Hd Hr Hc) as (w' & E & _ & Hn & _).
    eauto.
  - intros St T H f s rs fuel Hr.
    destruct (Do_loop_fatal f fuel (GetAttempts rs) 0
                {| op_state := s; strategy := rs; history := [] |} e c)
      as (w' & E & _ & Hn & _); auto.
    + lia.
    + exists w'. unfold Do. rewrite E. auto.
Qed.

(** A fatal error under two layers of context, and a plain error under
    one. *)
Lemma checkFatal_walks_chain_witness :
  checkFatal (Some (wrapError "outer" (Some (wrapError "inner"
                      (EndRetry (Some fatal_cause))))))
    = Some fatal_cause
  /\ checkFatal (Some (wrapError "outer" temporary)) = None.
Proof.
  split.
  - apply (proj1 (checkFatal_walks_chain
             (wrapError "outer" (Some (wrapError "inner"
                (EndRetry (Some fatal_cause))))))).
    repeat constructor.
  - apply (proj2 (checkFatal_walks_chain (wrapError "outer" temporary))).
    intros c Hc. inversion Hc as [| msg e0 c0 Hin]; subst. inversion Hin.
Defined.

(** C7. [capDelay] is defined on every pair of durations: it returns the
    delay when the cap is disabled ([max <= 0]) or not exceeded, and the
    cap otherwise; with [max > 0] the result is at most [max]. *)
Theorem capDelay_spec (delay max : Duration) :
  (max <= 0 \/ delay <= max -> capDelay delay max = delay)
  /\ (0 < max -> max < delay -> capDelay delay max = max)
  /\ (0 < max -> capDelay delay max <= max).
Proof.
  unfold capDelay.
  destruct (0 <? max) eqn:E1; destruct (max <? delay) eqn:E2; simpl;
    try apply Z.ltb_lt in E1; try apply Z.ltb_ge in E1;
    try apply Z.ltb_lt in E2; try apply Z.ltb_ge in E2;
    repeat split; intros; lia.
Qed.

Lemma capDelay_spec_witness :
  capDelay Second 0 = Second
  /\ capDelay (2 * Second) Second = Second
  /\ capDelay (-5) Second <= Second.
Proof.
  split; [| split].
  - apply (proj1 (capDelay_spec Second 0)). left. lia.
  - apply (proj1 (proj2 (capDelay_spec (2 * Second) Second)));
      unfold Second; lia.
  - apply (proj2 (proj2 (capDelay_spec (-5) Second))). unfold Second. lia.
Defined.

(** C8. [LinearBackoff.GetDelay a] is [capDelay (a * b) m], the product
    being that of [time.Duration] (64 bits; it is the exact product
    whenever that fits). For [NewLinearBackoff(500ms, 2s, 5)] an operation
    that always fails with the same retryable error makes [Do] return 5 and
    that error, and [GetDelay 4] is 2s. *)
Theorem LinearBackoff_GetDelay_spec :
  (forall (b m : Duration) (n a : Z),
     0 <= a ->
     LinearBackoff_GetDelay (NewLinearBackoff b m n) a = capDelay (mul64 a b) m
     /\ (in_int (a * b) ->
         LinearBackoff_GetDelay (NewLinearBackoff b m n) a = capDelay (a * b) m))
  /\ (forall (St : Type) (f : operation St) (s : St) (e : error) (fuel : nat),
        retryable e ->
        (forall i, nth_result f s i = e) ->
        (5 <= fuel)%nat ->
        exists w,
          Do fuel f s (NewLinearBackoff (500 * Millisecond) (2 * Second) 5)
            = Returned (5, e, w)
          /\ calls (history w) = 5%nat)
  /\ LinearBackoff_GetDelay
       (NewLinearBackoff (500 * Millisecond) (2 * Second) 5) 4 = 2 * Second
  /\ 4 * (500 * Millisecond) = 2 * Second.
Proof.
  split; [| split; [| split; reflexivity]].
  - intros b m n a _. split; [reflexivity|].
    intros Hr. unfold LinearBackoff_GetDelay, mul64. simpl.
    now rewrite wrap64_id.
  - intros St f s e fuel He Hf Hfuel.
    destruct (Do_exhaustion f s
                (NewLinearBackoff (500 * Millisecond) (2 * Second) 5) fuel)
      as (w & E & _ & Hc & _).
    + discriminate.
    + unfold max_int. simpl. lia.
    + intros i. now rewrite Hf.
    + apply LinearBackoff_delays_defined.
    + simpl. lia.
    + exists w. rewrite Hf in E. auto.
Qed.

Lemma LinearBackoff_GetDelay_spec_witness :
  LinearBackoff_GetDelay (NewLinearBackoff (100 * Millisecond) Second 5) 3
    = capDelay (3 * (100 * Millisecond)) Second
  /\ exists w,
       Do 5 (always temporary) tt
          (NewLinearBackoff (500 * Millisecond) (2 * Second) 5)
         = Returned (5, temporary, w)
       /\ calls (history w) = 5%nat.
Proof.
  split.
  - apply (proj1 LinearBackoff_GetDelay_spec (100 * Millisecond) Second 5 3).
    + lia.
    + unfold in_int, min_int, max_int, Millisecond. lia.
  - apply (proj1 (proj2 LinearBackoff_GetDelay_spec) unit (always temporary)
             tt temporary 5%nat).
    + split; [discriminate | reflexivity].
    + reflexivity.
    + lia.
Defined.

(** C9. [ExponentialBackoff.GetDelay a] is [capDelay (2^a * b) m] with
    the factor [2^a] and the product computed on 64 bits, wrapping modulo
    2^64 (no clamping, no saturation). So the delay overflows for large
    attempt indices: from index 64 on the factor is 0, and with a base
    delay of 100ms and a cap of 1s index 37 gives a negative delay where
    the exact product, capped, is 1s. *)
Theorem ExponentialBackoff_GetDelay_spec :
  (forall (b m : Duration) (n a : Z),
     0 <= a ->
     shl64 1 a = Some (wrap64 (2 ^ a))
     /\ ExponentialBackoff_GetDelay (NewExponentialBackoff b m n) a
        = Some (capDelay (mul64 (wrap64 (2 ^ a)) b) m)
     /\ mul64 (wrap64 (2 ^ a)) b = wrap64 (2 ^ a * b))
  /\ (forall (b m : Duration) (n a : Z),
        64 <= a ->
        ExponentialBackoff_GetDelay (NewExponentialBackoff b m n) a
        = Some (capDelay 0 m))
  /\ ExponentialBackoff_GetDelay
       (NewExponentialBackoff (100 * Millisecond) Second 5) 37
     = Some (-4702848726509551616)
  /\ capDelay (2 ^ 37 * (100 * Millisecond)) Second = Second.
Proof.
  split; [| split; [| split; reflexivity]].
  - intros b m n a Ha. split; [now apply shl64_pow|].
    split; [| apply mul64_wrap_l].
    unfold ExponentialBackoff_GetDelay. now rewrite shl64_pow.
  - intros b m n a Ha. unfold ExponentialBackoff_GetDelay.
    rewrite shl64_pow, mul64_wrap_l by lia. cbn [exp_retryDelay exp_maxDelay].
    assert (Hpow : 2 ^ a = 2 ^ (a - 64) * 2 ^ 64).
    { rewrite <- Z.pow_add_r by lia. f_equal. lia. }
    replace (2 ^ a * b) with (0 + (2 ^ (a - 64) * b) * 2 ^ 64)
      by (rewrite Hpow; ring).
    rewrite wrap64_shift. reflexivity.
Qed.

Lemma ExponentialBackoff_GetDelay_spec_witness :
  ExponentialBackoff_GetDelay
    (NewExponentialBackoff (100 * Millisecond) Second 5) 3
    = Some (capDelay (mul64 (wrap64 (2 ^ 3)) (100 * Millisecond)) Second)
  /\ ExponentialBackoff_GetDelay
       (NewExponentialBackoff (100 * Millisecond) Second 5) 64
     = Some (capDelay 0 Second).
Proof.
  split.
  - apply (proj1 ExponentialBackoff_GetDelay_spec
             (100 * Millisecond) Second 5 3). lia.
  - apply (proj1 (proj2 ExponentialBackoff_GetDelay_spec)
             (100 * Millisecond) Second 5 64). lia.
Defined.

(** * Further properties of the loop *)

Lemma results_app (h1 h2 : list event) :
  results (h1 ++ h2) = results h1 ++ results h2.
Proof.
  induction h1 as [| [d | r] h1 IH]; simpl; [reflexivity | exact IH |].
  now rewrite IH.
Qed.

Lemma sleeps_app (h1 h2 : list event) :
  sleeps (h1 ++ h2) = sleeps h1 ++ sleeps h2.
Proof.
  induction h1 as [| [d | r] h1 IH]; simpl; [reflexivity | | exact IH].
  now rewrite IH.
Qed.

Lemma calls_results (h : list event) : calls h = List.length (results h).
Proof.
  induction h as [| [d | r] h IH]; simpl; [reflexivity | exact IH |].
  now rewrite IH.
Qed.

Lemma last_result_results (h : list event) :
  last_result h = match results h with
                  | [] => None
                  | r :: _ => Some r
                  end.
Proof. induction h as [| [d | r] h IH]; simpl; auto. Qed.

Section Trace.
Context {St T : Type} `{retryStrategy T}.
Variable f : operation St.

(** What [attemptRetry] adds to the history: a sleep of [GetDelay attempts]
    when [attempts > 0], then the invocation. *)
Lemma attemptRetry_history (a : Z) (w w1 : world St T) (r : error) :
  attemptRetry f a w = Some (r, w1) ->
  (a <= 0 /\ history w1 = EvCall r :: history w /\ strategy w1 = strategy w)
  \/ (0 < a /\ exists d,
        GetDelay (strategy w) a = Some (d, strategy w1)
        /\ history w1 = EvCall r :: EvSleep d :: history w).
Proof.
  unfold attemptRetry, call. destruct (0 <? a) eqn:Ea.
  - apply Z.ltb_lt in Ea.
    destruct (GetDelay (strategy w) a) as [[d rs] |]; [|discriminate].
    cbn [op_state strategy history].
    destruct (f (op_state w)) as [err s1]. intros E. injection E as <- <-.
    right. split; [exact Ea|]. exists d. auto.
  - apply Z.ltb_ge in Ea. destruct (f (op_state w)) as [err s1].
    intros E. injection E as <- <-. left. auto.
Qed.

(** The shape of a run that returns: retried results, then a last result
    [r] on which the loop ends, in one of three ways. *)
Lemma Do_loop_trace (m : Z) :
  forall (fuel : nat) (a : Z) (w : world St T) (a' : Z) (e : error)
         (w' : world St T),
    Do_loop fuel f m a w = Returned (a', e, w') ->
    exists (r : error) (mid : list event),
      history w' = EvCall r :: mid ++ history w
      /\ Forall (fun x => is_retried x = true) (results mid)
      /\ ((r = None /\ e = None)
          \/ (r <> None /\ e <> None /\ checkFatal r = e)
          \/ (is_retried r = true /\ e = r
              /\ shouldStopRetry a' m = true)).
Proof.
  induction fuel as [| fuel IH]; intros a w a' e w' E; [discriminate|].
  cbn [Do_loop] in E.
  destruct (attemptRetry f a w) as [[r w1] |] eqn:Ea; [|discriminate].
  assert (Hh : exists pre, history w1 = EvCall r :: pre ++ history w
                           /\ results pre = []).
  { destruct (attemptRetry_history _ _ _ _ Ea)
      as [(_ & Hh & _) | (_ & d & _ & Hh)].
    - exists []. auto.
    - exists [EvSleep d]. auto. }
  destruct Hh as (pre & Hh & Hpre).
  destruct r as [x |].
  - destruct (checkFatal (Some x)) as [c |] eqn:Ec.
    + injection E as <- <- <-. exists (Some x), pre.
      rewrite Hpre. split; [exact Hh|]. split; [constructor|].
      right. left. repeat split; congruence.
    + destruct (shouldStopRetry (add64 a 1) m) eqn:Es.
      * injection E as <- <- <-. exists (Some x), pre.
        rewrite Hpre. split; [exact Hh|]. split; [constructor|].
        right. right. unfold is_retried. rewrite Ec. auto.
      * apply IH in E. destruct E as (r & mid & Hh' & Hall & Hexit).
        exists r, (mid ++ EvCall (Some x) :: pre).
        split; [rewrite Hh', Hh, <- app_assoc; reflexivity|].
        split; [| exact Hexit].
        rewrite results_app. simpl. rewrite Hpre.
        apply Forall_app. split; [exact Hall|].
        constructor; [| constructor]. unfold is_retried. now rewrite Ec.
  - injection E as <- <- <-. exists None, pre.
    rewrite Hpre. split; [exact Hh|]. split; [constructor|]. auto.
Qed.
End Trace.

(** ** How [Do] ends *)

(** X1. Whenever [Do] returns, its error is decided by the result [r] of
    the last invocation: nil when [r] is nil; the non-nil value of
    [checkFatal r]; or [r] itself, a non-nil error that [checkFatal] maps
    to nil, and then only with a budget other than -1 that the returned
    count has reached. So under the unlimited budget [Do] returns only on
    success or on a fatal error. *)
Theorem Do_exit_condition {St T : Type} `{retryStrategy T}
        (f : operation St) (s : St) (rs : T) (fuel : nat)
        (a : Z) (e : error) (w : world St T) :
  Do fuel f s rs = Returned (a, e, w) ->
  exists r,
    last_result (history w) = Some r
    /\ ((r = None /\ e = None)
        \/ (r <> None /\ e <> None /\ checkFatal r = e)
        \/ (is_retried r = true /\ e = r
            /\ GetAttempts rs <> -1 /\ GetAttempts rs <= a)).
Proof.
  intros E. unfold Do in E.
  destruct (Do_loop_trace f _ _ _ _ _ _ _ E) as (r & mid & Hh & _ & Hexit).
  exists r. split; [now rewrite Hh|].
  destruct Hexit as [Hx | [Hx | (Hr & He & Hs)]]; auto.
  right. right. split; [exact Hr|]. split; [exact He|].
  unfold shouldStopRetry in Hs. apply andb_prop in Hs. destruct Hs as [H1 H2].
  apply negb_true_iff, Z.eqb_neq in H1. apply Z.leb_le in H2. auto.
Qed.

Lemma Do_exit_condition_witness :
  exists r,
    last_result [EvCall temporary; EvSleep Millisecond; EvCall temporary]
      = Some r
    /\ ((r = None /\ temporary = None)
        \/ (r <> None /\ temporary <> None /\ checkFatal r = temporary)
        \/ (is_retried r = true /\ temporary = r
            /\ GetAttempts (NewConstantBackoff Millisecond 2) <> -1
            /\ GetAttempts (NewConstantBackoff Millisecond 2) <= 2)).
Proof.
  apply (Do_exit_condition (always temporary) tt
           (NewConstantBackoff Millisecond 2) 2 2 temporary
           {| op_state := tt; strategy := NewConstantBackoff Millisecond 2;
              history := [EvCall temporary; EvSleep Millisecond;
                          EvCall temporary] |}).
  reflexivity.
Defined.

(** X2. [Do] returns a nil error exactly when the last invocation of the
    operation returned nil: an error is never swallowed and a success is
    never turned into an error. *)
Theorem Do_nil_iff_last_call_succeeded {St T : Type} `{retryStrategy T}
        (f : operation St) (s : St) (rs : T) (fuel : nat)
        (a : Z) (e : error) (w : world St T) :
  Do fuel f s rs = Returned (a, e, w) ->
  (e = None <-> last_result (history w) = Some None).
Proof.
  intros E. unfold Do in E.
  destruct (Do_loop_trace f _ _ _ _ _ _ _ E) as (r & mid & Hh & _ & Hexit).
  rewrite Hh. simpl.
  destruct Hexit as [[-> ->] | [(Hr & He & _) | (Hr & -> & _)]].
  - split; reflexivity.
  - split; [contradiction | intros Hn; injection Hn as ->; contradiction].
  - destruct r as [x |]; [| discriminate]. split; discriminate.
Qed.

Lemma Do_nil_iff_last_call_succeeded_witness :
  (@None error_value) = None <->
  last_result [EvCall None; EvSleep (100 * Millisecond); EvCall temporary]
    = Some None.
Proof.
  apply (Do_nil_iff_last_call_succeeded script [temporary; None]
           (NewLinearBackoff (100 * Millisecond) Second 5) 2 2 None
           {| op_state := []; strategy := NewLinearBackoff (100 * Millisecond) Second 5;
              history := [EvCall None; EvSleep (100 * Millisecond);
                          EvCall temporary] |}).
  reflexivity.
Defined.

(** X3. Whenever [Do] returns, every invocation but the last returned a
    non-nil error that [checkFatal] mapped to nil: the operation is never
    invoked again after a success or after a fatal error. *)
Theorem Do_retries_only_after_retried_results {St T : Type} `{retryStrategy T}
        (f : operation St) (s : St) (rs : T) (fuel : nat)
        (a : Z) (e : error) (w : world St T) :
  Do fuel f s rs = Returned (a, e, w) ->
  exists r earlier,
    results (history w) = r :: earlier
    /\ Forall (fun x => is_retried x = true) earlier.
Proof.
  intros E. unfold Do in E.
  destruct (Do_loop_trace f _ _ _ _ _ _ _ E) as (r & mid & Hh & Hall & _).
  exists r, (results mid). split; [| exact Hall].
  rewrite Hh. simpl. now rewrite results_app, app_nil_r.
Qed.

Lemma Do_retries_only_after_retried_results_witness :
  exists r earlier,
    results [EvCall (EndRetry (Some fatal_cause));
             EvSleep (2 * (500 * Millisecond)); EvCall temporary;
             EvSleep (500 * Millisecond); EvCall temporary]
      = r :: earlier
    /\ Forall (fun x => is_retried x = true) earlier.
Proof.
  apply (Do_retries_only_after_retried_results readme_case2 0 readme_strategy
           3 3 (Some fatal_cause)
           {| op_state := 3; strategy := readme_strategy;
              history := [EvCall (EndRetry (Some fatal_cause));
                          EvSleep (2 * (500 * Millisecond)); EvCall temporary;
                          EvSleep (500 * Millisecond); EvCall temporary] |}).
  reflexivity.
Defined.

(** ** Termination under a bounded budget *)

Lemma Do_loop_bounded_returns {St T : Type} `{retryStrategy T}
      (f : operation St) (m : Z) :
  m <> -1 -> m <= max_int ->
  delays_defined 1 (Z.max m 1) ->
  forall (fuel : nat) (a : Z) (w : world St T),
    0 <= a -> a = 0 \/ a < m ->
    Z.max m 1 - a <= Z.of_nat fuel ->
    exists a' e w',
      Do_loop fuel f m a w = Returned (a', e, w') /\ a < a' <= Z.max m 1.
Proof.
  intros Hm Hmax Hd.
  induction fuel as [| fuel IH]; intros a w Ha Hlt Hfuel; [lia|].
  assert (Hsucc : add64 a 1 = a + 1).
  { apply add64_succ; [exact Ha|]. unfold max_int in *. lia. }
  assert (Hdef : 0 < a -> GetDelay (strategy w) a <> None).
  { intros Hpos. apply Hd. lia. }
  destruct (fst (f (op_state w))) as [x |] eqn:Hr.
  - destruct (checkFatal (Some x)) as [c |] eqn:Hc.
    + destruct (Do_loop_fatal f fuel m a w x c Hdef Hr Hc) as (w' & E & _).
      rewrite Hsucc in E. exists (a + 1), (Some c), w'. split; [exact E | lia].
    + destruct (Do_loop_retry f fuel m a w x Hdef Hr Hc) as (w' & _ & E).
      rewrite Hsucc in E.
      destruct (shouldStopRetry (a + 1) m) eqn:Es.
      * exists (a + 1), (Some x), w'. split; [exact E | lia].
      * destruct (shouldStopRetry_false _ _ Es) as [? | Hlt']; [contradiction|].
        destruct (IH (a + 1) w') as (a' & e & w'' & E' & Hb); try lia.
        exists a', e, w''. rewrite E. split; [exact E' | lia].
  - destruct (Do_loop_success f fuel m a w Hdef Hr) as (w' & E & _).
    rewrite Hsucc in E. exists (a + 1), None, w'. split; [exact E | lia].
Qed.

(** X4. With a budget [m] other than -1, [Do] returns whatever the
    operation does, after at most [max m 1] invocations (a budget of 0 or
    less still allows the first invocation). [delays_defined]: the
    strategy's [GetDelay] returns on the indices [1 .. m-1]. *)
Theorem Do_bounded_budget_returns {St T : Type} `{retryStrategy T}
        (f : operation St) (s : St) (rs : T) (fuel : nat) :
  GetAttempts rs <> -1 -> GetAttempts rs <= max_int ->
  delays_defined 1 (Z.max (GetAttempts rs) 1) ->
  (Z.to_nat (Z.max (GetAttempts rs) 1) <= fuel)%nat ->
  exists a e w,
    Do fuel f s rs = Returned (a, e, w)
    /\ 1 <= a <= Z.max (GetAttempts rs) 1
    /\ Z.of_nat (calls (history w)) = a.
Proof.
  intros Hm Hmax Hd Hfuel.
  destruct (Do_loop_bounded_returns f (GetAttempts rs) Hm Hmax Hd fuel 0
              {| op_state := s; strategy := rs; history := [] |})
    as (a & e & w & E & Hb); try lia.
  exists a, e, w. split; [exact E|]. split; [lia|].
  apply Do_loop_counts in E; [| lia | exact Hmax | left; auto].
  destruct E as (k & _ & Hc & Ha). simpl in Hc. lia.
Qed.

Lemma Do_bounded_budget_returns_witness :
  exists a e w,
    Do 5 readme_case2 0 readme_strategy = Returned (a, e, w)
    /\ 1 <= a <= Z.max (GetAttempts readme_strategy) 1
    /\ Z.of_nat (calls (history w)) = a.
Proof.
  apply (Do_bounded_budget_returns readme_case2 0 readme_strategy 5).
  - discriminate.
  - unfold max_int. simpl. lia.
  - apply LinearBackoff_delays_defined.
  - simpl. lia.
Defined.

(** ** Budget against success *)

(** X5. Under any budget that lets invocation [k] happen ([k = 1], or
    budget -1, or budget at least [k]), an operation that fails retryably
    [k - 1] times and then succeeds makes [Do] return [(k, nil)] after
    exactly [k] invocations. *)
Theorem Do_succeeds_within_budget {St T : Type} `{retryStrategy T}
        (f : operation St) (s : St) (rs : T) (k fuel : nat) :
  (1 <= k)%nat -> Z.of_nat k <= max_int ->
  k = 1%nat \/ GetAttempts rs = -1 \/ Z.of_nat k <= GetAttempts rs ->
  (forall i, (i < k - 1)%nat -> retryable (nth_result f s i)) ->
  nth_result f s (k - 1) = None ->
  delays_defined 1 (Z.of_nat k) ->
  (k <= fuel)%nat ->
  exists w,
    Do fuel f s rs = Returned (Z.of_nat k, None, w)
    /\ calls (history w) = k
    /\ op_state w = state_after f s k.
Proof.
  intros Hk Hmax Hb Hf Hok Hd Hfuel.
  destruct (Do_after_failures f s rs (k - 1) (S (fuel - k)))
    as (w1 & E1 & Hst1 & Hc1); auto; try lia.
  { eapply delays_defined_mono; [| | exact Hd]; lia. }
  destruct (Do_loop_success f (fuel - k) (GetAttempts rs)
              (Z.of_nat (k - 1)) w1) as (w2 & E2 & Hst2 & Hc2 & _).
  - intros Hpos. apply Hd. lia.
  - unfold nth_result in Hok. now rewrite Hst1.
  - exists w2. replace fuel with (k - 1 + S (fuel - k))%nat at 1 by lia.
    rewrite E1, E2, add64_succ by lia.
    replace (Z.of_nat (k - 1) + 1) with (Z.of_nat k) by lia.
    split; [reflexivity|]. split; [lia|].
    rewrite Hst2, Hst1, <- state_after_snoc. f_equal. lia.
Qed.

(** [TestDo], "Retry with success after 2 attempts". *)
Lemma Do_succeeds_within_budget_witness :
  exists w,
    Do 2 script [Some (errorString "retryable error")]
       {| mock_delays := [Millisecond; Millisecond]; mock_attempts := 3 |}
      = Returned (2, None, w)
    /\ calls (history w) = 2%nat
    /\ op_state w = [].
Proof.
  apply (Do_succeeds_within_budget script
           [Some (errorString "retryable error")]
           {| mock_delays := [Millisecond; Millisecond]; mock_attempts := 3 |}
           2 2).
  - lia.
  - unfold max_int. lia.
  - right. right. simpl. lia.
  - intros i Hi. assert (i = 0%nat) as -> by (simpl in Hi; lia).
    split; [discriminate | reflexivity].
  - reflexivity.
  - eapply delays_defined_mono;
      [| | apply (mockStrategy_delays_defined 2)]; lia.
  - lia.
Defined.

(** X6. With a budget [m >= 1], retryable failures at the first [m]
    invocations exhaust the budget: [Do] returns [m] and the error of
    invocation [m], and the operation is not invoked again, whatever it
    would have returned next. *)
Theorem Do_exhausts_before_later_result {St T : Type} `{retryStrategy T}
        (f : operation St) (s : St) (rs : T) (fuel : nat) :
  let m := GetAttempts rs in
  1 <= m <= max_int ->
  (forall i, (i < Z.to_nat m)%nat -> retryable (nth_result f s i)) ->
  delays_defined 1 m ->
  (Z.to_nat m <= fuel)%nat ->
  exists w,
    Do fuel f s rs = Returned (m, nth_result f s (Z.to_nat m - 1), w)
    /\ calls (history w) = Z.to_nat m
    /\ op_state w = state_after f s (Z.to_nat m).
Proof.
  intros m Hm Hf Hd Hfuel.
  set (r := (Z.to_nat m - 1)%nat).
  assert (Hr : Z.of_nat r = m - 1) by (unfold r; lia).
  destruct (Do_after_failures f s rs r (S (fuel - Z.to_nat m)))
    as (w1 & E1 & Hst1 & Hc1).
  - unfold max_int in *. lia.
  - right. right. fold m. lia.
  - intros i Hi. apply Hf. lia.
  - eapply delays_defined_mono; [| | exact Hd]; lia.
  - destruct (retryable_checkFatal _ (Hf r ltac:(lia))) as (e & He & Hc).
    destruct (Do_loop_retry f (fuel - Z.to_nat m) m (Z.of_nat r) w1 e)
      as (w2 & (Hst2 & Hc2 & _) & E2).
    + intros Hpos. apply Hd. lia.
    + unfold nth_result in He. now rewrite Hst1.
    + exact Hc.
    + rewrite add64_succ in E2 by (unfold max_int in *; lia).
      rewrite shouldStopRetry_reached in E2 by lia.
      exists w2. replace fuel with (r + S (fuel - Z.to_nat m))%nat at 1 by lia.
      fold m in E1. rewrite E1, E2. fold r. rewrite He.
      replace (Z.of_nat r + 1) with m by lia.
      split; [reflexivity|]. split; [lia|].
      rewrite Hst2, Hst1, <- state_after_snoc. f_equal. lia.
Qed.

(** A budget of 2 and an operation that would succeed at its third
    invocation. *)
Lemma Do_exhausts_before_later_result_witness :
  exists w,
    Do 2 script [temporary; temporary; None] (NewConstantBackoff Millisecond 2)
      = Returned (2, temporary, w)
    /\ calls (history w) = 2%nat
    /\ op_state w = [None].
Proof.
  refine (Do_exhausts_before_later_result script [temporary; temporary; None]
            (NewConstantBackoff Millisecond 2) 2 _ _ _ _).
  - unfold max_int. simpl. lia.
  - intros i Hi.
    assert (Hcases : i = 0%nat \/ i = 1%nat) by (simpl in Hi; lia).
    destruct Hcases as [-> | ->]; (split; [discriminate | reflexivity]).
  - apply ConstantBackoff_delays_defined.
  - simpl. lia.
Defined.

(** ** Panics *)

Lemma Do_loop_no_panic {St T : Type} `{retryStrategy T}
      (f : operation St) (m : Z) :
  delays_defined 1 (max_int + 1) ->
  forall (fuel : nat) (a : Z) (w : world St T),
    in_int a -> Do_loop fuel f m a w <> Panicked.
Proof.
  intros Hd. induction fuel as [| fuel IH]; intros a w Ha; [discriminate|].
  assert (Hdef : 0 < a -> GetDelay (strategy w) a <> None).
  { intros Hpos. apply Hd. unfold in_int in Ha. lia. }
  destruct (attemptRetry_defined f a w Hdef) as (w' & E & _).
  cbn [Do_loop]. rewrite E.
  destruct (fst (f (op_state w))) as [x |]; [| discriminate].
  destruct (checkFatal (Some x)); [discriminate|].
  destruct (shouldStopRetry (add64 a 1) m); [discriminate|].
  apply IH. apply wrap64_range.
Qed.

(** In the model, where the operation and [GetAttempts] return, [Do]
    does not panic with a strategy whose [GetDelay] returns on every
    positive attempt index. *)
Lemma Do_never_panics {St T : Type} `{retryStrategy T}
      (f : operation St) (s : St) (rs : T) (fuel : nat) :
  delays_defined 1 (max_int + 1) ->
  Do fuel f s rs <> Panicked.
Proof.
  intros Hd. unfold Do. apply Do_loop_no_panic; [exact Hd|].
  unfold in_int, min_int, max_int. lia.
Qed.

Lemma Do_loop_GetDelay_positive {St T : Type} (H1 H2 : retryStrategy T)
      (f : operation St) (m : Z) :
  (forall (rs : T) (a : Z),
     1 <= a <= max_int ->
     @GetDelay T H1 rs a = @GetDelay T H2 rs a) ->
  forall (fuel : nat) (a : Z) (w : world St T),
    in_int a ->
    @Do_loop St T H1 fuel f m a w = @Do_loop St T H2 fuel f m a w.
Proof.
  intros Hagree. induction fuel as [| fuel IH]; intros a w Ha; [reflexivity|].
  assert (Hstep : @attemptRetry St T H1 f a w = @attemptRetry St T H2 f a w).
  { unfold attemptRetry. destruct (0 <? a) eqn:Ea; [| reflexivity].
    apply Z.ltb_lt in Ea. rewrite Hagree; [reflexivity|].
    unfold in_int in Ha. lia. }
  cbn [Do_loop]. rewrite Hstep.
  destruct (@attemptRetry St T H2 f a w) as [[[x |] w1] |]; try reflexivity.
  destruct (checkFatal (Some x)); [reflexivity|].
  destruct (shouldStopRetry (add64 a 1) m); [reflexivity|].
  apply IH. apply wrap64_range.
Qed.

(** X7. [Do] passes to [GetDelay] only attempt indices from 1 to the
    largest [int]: two strategies with the same budget whose [GetDelay]
    agree on these indices make [Do] behave the same (same result, same
    history, same panic of [GetDelay]), however they differ at index 0 and
    at negative indices. *)
Theorem Do_consults_GetDelay_on_positive_indices {St T : Type}
        (H1 H2 : retryStrategy T)
        (f : operation St) (s : St) (rs : T) (fuel : nat) :
  (forall (r : T) (a : Z),
     1 <= a <= max_int ->
     @GetDelay T H1 r a = @GetDelay T H2 r a) ->
  @GetAttempts T H1 rs = @GetAttempts T H2 rs ->
  @Do St T H1 fuel f s rs = @Do St T H2 fuel f s rs.
Proof.
  intros Hagree Hbudget. unfold Do. rewrite Hbudget.
  apply Do_loop_GetDelay_positive; [exact Hagree|].
  unfold in_int, min_int, max_int. lia.
Qed.

(** [ExponentialBackoff], whose [GetDelay] panics below index 0, and its
    variant that panics below index 1. *)
Lemma Do_consults_GetDelay_on_positive_indices_witness :
  @Do unit ExponentialBackoff ExponentialBackoff_strategy 7
      (always temporary) tt
      (NewExponentialBackoff (100 * Millisecond) Second (-1))
  = @Do unit ExponentialBackoff ExponentialBackoff_from_one 7
        (always temporary) tt
        (NewExponentialBackoff (100 * Millisecond) Second (-1)).
Proof.
  apply (Do_consults_GetDelay_on_positive_indices
           ExponentialBackoff_strategy ExponentialBackoff_from_one
           (always temporary) tt
           (NewExponentialBackoff (100 * Millisecond) Second (-1)) 7).
  - intros r a Ha. cbn [GetDelay ExponentialBackoff_strategy
                        ExponentialBackoff_from_one].
    destruct (a <? 1) eqn:E; [apply Z.ltb_lt in E; lia | reflexivity].
  - reflexivity.
Defined.

(** ** Sleeps *)

(** The first iteration of [Do]: the operation is invoked on an empty
    history, without a sleep and without a call to [GetDelay]. *)
Lemma Do_first_iteration {St T : Type} `{retryStrategy T}
      (f : operation St) (s : St) (rs : T) (fuel : nat) :
  let w1 : world St T := {| op_state := snd (f s); strategy := rs;
                            history := [EvCall (fst (f s))] |} in
  Do (S fuel) f s rs =
    match fst (f s) with
    | None => Returned (1, None, w1)
    | Some x =>
        match checkFatal (Some x) with
        | Some c => Returned (1, Some c, w1)
        | None => if shouldStopRetry 1 (GetAttempts rs)
                  then Returned (1, Some x, w1)
                  else Do_loop fuel f (GetAttempts rs) 1 w1
        end
    end.
Proof.
  unfold Do. cbn [Do_loop]. unfold attemptRetry, call.
  change (0 <? 0) with false. cbv iota. cbn [op_state strategy history].
  change (add64 0 1) with 1. destruct (f s) as [[x |] s1]; reflexivity.
Qed.

Lemma Do_loop_alternating {St T : Type} `{retryStrategy T}
      (f : operation St) (m : Z) :
  forall (fuel : nat) (a : Z) (w : world St T) (a' : Z) (e : error)
         (w' : world St T),
    Do_loop fuel f m a w = Returned (a', e, w') ->
    0 < a -> m <= max_int ->
    (m <> -1 /\ a < m) \/ a + Z.of_nat fuel <= max_int ->
    alternating (history w) = true ->
    alternating (history w') = true.
Proof.
  induction fuel as [| fuel IH]; intros a w a' e w' E Ha Hm Hb Halt;
    [discriminate|].
  assert (Hsucc : add64 a 1 = a + 1).
  { apply add64_succ; [lia|]. unfold max_int in *. lia. }
  cbn [Do_loop] in E. rewrite Hsucc in E.
  destruct (attemptRetry f a w) as [[r w1] |] eqn:Ea; [|discriminate].
  destruct (attemptRetry_history f _ _ _ _ Ea)
    as [(Hle & _) | (_ & d & _ & Hh)]; [lia|].
  assert (Halt1 : alternating (history w1) = true)
    by (rewrite Hh; exact Halt).
  destruct r as [x |].
  - destruct (checkFatal (Some x)).
    + now injection E as _ _ <-.
    + destruct (shouldStopRetry (a + 1) m) eqn:Es.
      * now injection E as _ _ <-.
      * apply IH in E; [exact E | lia | exact Hm | | exact Halt1].
        destruct Hb as [[Hm1 _] | Hb]; [left | right; lia].
        split; [exact Hm1|].
        destruct (shouldStopRetry_false _ _ Es); [contradiction | assumption].
  - now injection E as _ _ <-.
Qed.

(** X8. [Do] sleeps between invocations and nowhere else: whenever it
    returns, its history is an alternation of invocations and sleeps that
    begins and ends with an invocation, so that a sleep always comes
    after an invocation and before the next one, once between any two
    consecutive invocations, never before the first and never after the
    last. (The counter that guards the sleep is a 64-bit integer: for the
    unlimited budget the statement is for runs of fewer than 2^63
    iterations.) *)
Theorem Do_sleeps_between_invocations {St T : Type} `{retryStrategy T}
        (f : operation St) (s : St) (rs : T) (fuel : nat)
        (a : Z) (e : error) (w : world St T) :
  Do fuel f s rs = Returned (a, e, w) ->
  GetAttempts rs <= max_int ->
  GetAttempts rs <> -1 \/ Z.of_nat fuel <= max_int ->
  alternating (history w) = true.
Proof.
  intros E Hm Hb. destruct fuel as [| fuel]; [discriminate|].
  rewrite Do_first_iteration in E. cbv zeta in E.
  assert (Hone : forall x y : error,
            Returned (1, x, {| op_state := snd (f s); strategy := rs;
                               history := [EvCall (fst (f s))] |})
              = Returned (a, y, w) ->
            alternating (history w) = true).
  { intros x y Ex. injection Ex as _ _ <-. reflexivity. }
  destruct (fst (f s)) as [x |] eqn:Hr; [| now apply (Hone None e)].
  destruct (checkFatal (Some x)) as [c |]; [now apply (Hone (Some c) e)|].
  destruct (shouldStopRetry 1 (GetAttempts rs)) eqn:Es;
    [now apply (Hone (Some x) e)|].
  apply Do_loop_alternating in E; [exact E | lia | exact Hm | | reflexivity].
  destruct Hb as [Hb | Hb]; [left | right; lia].
  split; [exact Hb|].
  destruct (shouldStopRetry_false _ _ Es); [contradiction | assumption].
Qed.

Lemma Do_sleeps_between_invocations_witness :
  alternating [EvCall (EndRetry (Some fatal_cause));
               EvSleep (2 * (500 * Millisecond)); EvCall temporary;
               EvSleep (500 * Millisecond); EvCall temporary] = true.
Proof.
  apply (Do_sleeps_between_invocations readme_case2 0 readme_strategy
           3 3 (Some fatal_cause)
           {| op_state := 3; strategy := readme_strategy;
              history := [EvCall (EndRetry (Some fatal_cause));
                          EvSleep (2 * (500 * Millisecond)); EvCall temporary;
                          EvSleep (500 * Millisecond); EvCall temporary] |}).
  - reflexivity.
  - unfold max_int. simpl. lia.
  - left. discriminate.
Defined.

Lemma timeline_cons (dly : Z -> Duration) (r r' : error) (rs : list error) :
  timeline dly (r :: r' :: rs)
  = EvCall r :: EvSleep (dly (Z.of_nat (List.length (r' :: rs))))
      :: timeline dly (r' :: rs).
Proof. reflexivity. Qed.

Lemma Do_loop_timeline {St T : Type} `{retryStrategy T}
      (f : operation St) (m : Z) (rs : T) (dly : Z -> Duration) :
  (forall i, 0 < i -> GetDelay rs i = Some (dly i, rs)) ->
  m <= max_int ->
  forall (fuel : nat) (a : Z) (w : world St T) (a' : Z) (e : error)
         (w' : world St T),
    strategy w = rs ->
    Do_loop fuel f m a w = Returned (a', e, w') ->
    0 < a ->
    (m <> -1 /\ a < m) \/ a + Z.of_nat fuel <= max_int ->
    history w = timeline dly (results (history w)) ->
    Z.of_nat (List.length (results (history w))) = a ->
    history w' = timeline dly (results (history w'))
    /\ Z.of_nat (List.length (results (history w'))) = a'.
Proof.
  intros Hpure Hm.
  induction fuel as [| fuel IH]; intros a w a' e w' Hs E Ha Hb Ht Hlen;
    [discriminate|].
  assert (Hsucc : add64 a 1 = a + 1).
  { apply add64_succ; [lia|]. unfold max_int in *. lia. }
  cbn [Do_loop] in E. rewrite Hsucc in E.
  destruct (attemptRetry f a w) as [[r w1] |] eqn:Ea; [|discriminate].
  destruct (attemptRetry_history f _ _ _ _ Ea)
    as [(Hle & _) | (Hpos & d & Hg & Hh)]; [lia|].
  rewrite Hs, (Hpure _ Hpos) in Hg. injection Hg as <- Hs1.
  assert (Hw1 : history w1 = timeline dly (results (history w1))
                /\ Z.of_nat (List.length (results (history w1))) = a + 1).
  { rewrite Hh. cbn [results].
    destruct (results (history w)) as [| r' rest] eqn:Hres;
      [simpl in Hlen; lia|].
    rewrite timeline_cons, Hlen, <- Ht. split; [reflexivity|].
    cbn [List.length] in Hlen |- *. lia. }
  destruct r as [x |].
  - destruct (checkFatal (Some x)).
    + now injection E as <- _ <-.
    + destruct (shouldStopRetry (a + 1) m) eqn:Es.
      * now injection E as <- _ <-.
      * apply IH in E; [exact E | now symmetry | lia | | apply Hw1 | apply Hw1].
        destruct Hb as [[Hm1 _] | Hb]; [left | right; lia].
        split; [exact Hm1|].
        destruct (shouldStopRetry_false _ _ Es); [contradiction | assumption].
  - now injection E as <- _ <-.
Qed.

(** X9. The sleep just before invocation [i + 1] is [GetDelay i]: for a
    strategy whose [GetDelay] is a function [dly] of the attempt index
    (all but [RandomizedBackoff]), whenever [Do] returns [a] attempts its
    history is: invocation 1, sleep [dly 1], invocation 2, sleep [dly 2],
    ..., sleep [dly (a - 1)], invocation [a], and nothing else;
    [GetDelay 0] is never used. (Same provision on the 64-bit counter.) *)
Theorem Do_sleep_schedule {St T : Type} `{retryStrategy T}
        (f : operation St) (s : St) (rs : T) (dly : Z -> Duration)
        (fuel : nat) (a : Z) (e : error) (w : world St T) :
  (forall i, 0 < i -> GetDelay rs i = Some (dly i, rs)) ->
  Do fuel f s rs = Returned (a, e, w) ->
  GetAttempts rs <= max_int ->
  GetAttempts rs <> -1 \/ Z.of_nat fuel <= max_int ->
  history w = timeline dly (results (history w))
  /\ Z.of_nat (List.length (results (history w))) = a.
Proof.
  intros Hpure E Hm Hb. destruct fuel as [| fuel]; [discriminate|].
  rewrite Do_first_iteration in E. cbv zeta in E.
  assert (Hone : forall x y : error,
            Returned (1, x, {| op_state := snd (f s); strategy := rs;
                               history := [EvCall (fst (f s))] |})
              = Returned (a, y, w) ->
            history w = timeline dly (results (history w))
            /\ Z.of_nat (List.length (results (history w))) = a).
  { intros x y Ex. injection Ex as <- _ <-. split; reflexivity. }
  destruct (fst (f s)) as [x |] eqn:Hr; [| now apply (Hone None e)].
  destruct (checkFatal (Some x)) as [c |]; [now apply (Hone (Some c) e)|].
  destruct (shouldStopRetry 1 (GetAttempts rs)) eqn:Es;
    [now apply (Hone (Some x) e)|].
  apply (Do_loop_timeline f _ rs dly Hpure Hm) in E;
    [exact E | reflexivity | lia | | reflexivity | reflexivity].
  destruct Hb as [Hb | Hb]; [left | right; lia].
  split; [exact Hb|].
  destruct (shouldStopRetry_false _ _ Es); [contradiction | assumption].
Qed.

(** The README's first case: 500ms, 1s, 1.5s and 2s before invocations
    2, 3, 4 and 5. *)
Lemma Do_sleep_schedule_witness :
  [EvCall temporary; EvSleep (4 * (500 * Millisecond));
   EvCall temporary; EvSleep (3 * (500 * Millisecond));
   EvCall temporary; EvSleep (2 * (500 * Millisecond));
   EvCall temporary; EvSleep (500 * Millisecond);
   EvCall temporary]
  = timeline (LinearBackoff_GetDelay readme_strategy)
             [temporary; temporary; temporary; temporary; temporary]
  /\ Z.of_nat 5 = 5.
Proof.
  apply (Do_sleep_schedule (always temporary) tt readme_strategy
           (LinearBackoff_GetDelay readme_strategy) 5 5 temporary
           {| op_state := tt; strategy := readme_strategy;
              history := [EvCall temporary; EvSleep (4 * (500 * Millisecond));
                          EvCall temporary; EvSleep (3 * (500 * Millisecond));
                          EvCall temporary; EvSleep (2 * (500 * Millisecond));
                          EvCall temporary; EvSleep (500 * Millisecond);
                          EvCall temporary] |}).
  - reflexivity.
  - reflexivity.
  - unfold max_int. simpl. lia.
  - left. discriminate.
Defined.

(** * Further properties of the delays *)

Lemma capDelay_cases (d m : Duration) :
  (capDelay d m = d /\ (m <= 0 \/ d <= m))
  \/ (capDelay d m = m /\ 0 < m < d).
Proof.
  unfold capDelay.
  destruct (0 <? m) eqn:E1; destruct (m <? d) eqn:E2; simpl;
    try apply Z.ltb_lt in E1; try apply Z.ltb_ge in E1;
    try apply Z.ltb_lt in E2; try apply Z.ltb_ge in E2; lia.
Qed.

Lemma capDelay_upper (d m : Duration) : 0 < m -> capDelay d m <= m.
Proof. destruct (capDelay_cases d m) as [[-> ?] | [-> ?]]; lia. Qed.

Lemma capDelay_le (d m : Duration) : capDelay d m <= d.
Proof. destruct (capDelay_cases d m) as [[-> ?] | [-> ?]]; lia. Qed.

Lemma capDelay_mono (d d' m : Duration) :
  d <= d' -> capDelay d m <= capDelay d' m.
Proof.
  destruct (capDelay_cases d m) as [[-> ?] | [-> ?]];
    destruct (capDelay_cases d' m) as [[-> ?] | [-> ?]]; lia.
Qed.

Lemma capDelay_nonneg (d m : Duration) : 0 <= d -> 0 <= capDelay d m.
Proof. destruct (capDelay_cases d m) as [[-> ?] | [-> ?]]; lia. Qed.

(** X10. [capDelay] never lengthens a delay, capping twice is capping
    once, a longer delay is not capped to a shorter one, and a delay that
    is zero or negative passes unchanged whatever the cap. *)
Theorem capDelay_laws (d d' m : Duration) :
  capDelay d m <= d
  /\ capDelay (capDelay d m) m = capDelay d m
  /\ (d <= d' -> capDelay d m <= capDelay d' m)
  /\ (d <= 0 -> capDelay d m = d).
Proof.
  split; [apply capDelay_le|]. split; [| split; [apply capDelay_mono|]].
  - destruct (capDelay_cases d m) as [[E ?] | [E ?]]; rewrite E.
    + exact E.
    + destruct (capDelay_cases m m) as [[-> ?] | [-> ?]]; lia.
  - intros Hd. destruct (capDelay_cases d m) as [[-> ?] | [-> ?]]; lia.
Qed.

Lemma capDelay_laws_witness :
  capDelay Second (2 * Second) <= capDelay (3 * Second) (2 * Second)
  /\ capDelay (-5) Second = -5.
Proof.
  split.
  - apply (proj1 (proj2 (proj2
             (capDelay_laws Second (3 * Second) (2 * Second))))).
    unfold Second. lia.
  - apply (proj2 (proj2 (proj2 (capDelay_laws (-5) 0 Second)))). lia.
Defined.

(** X11. With a positive [maxDelay] no delay computed by [LinearBackoff],
    [ExponentialBackoff] or [RandomizedBackoff] exceeds it, at any attempt
    index and also when the product has overflowed. *)
Theorem GetDelay_never_exceeds_maxDelay (b m : Duration) (n a : Z) :
  0 < m ->
  LinearBackoff_GetDelay (NewLinearBackoff b m n) a <= m
  /\ (forall d,
        ExponentialBackoff_GetDelay (NewExponentialBackoff b m n) a = Some d ->
        d <= m)
  /\ (forall (Rand : Type) (Intn : Rand -> int -> option (int * Rand))
             (src : Rand) d rs',
        RandomizedBackoff_GetDelay Rand Intn
          (MkRandomizedBackoff Rand b m n src) a = Some (d, rs') ->
        d <= m).
Proof.
  intros Hm. split; [apply capDelay_upper; exact Hm|]. split.
  - intros d. unfold ExponentialBackoff_GetDelay.
    destruct (shl64 1 a); [| discriminate].
    intros E. injection E as <-. apply capDelay_upper. exact Hm.
  - intros Rand Intn src d rs'. unfold RandomizedBackoff_GetDelay.
    cbn [rnd_rand rnd_retryDelay rnd_maxDelay rnd_attempts].
    destruct (Intn src (add64 a 1)) as [[r src'] |]; [| discriminate].
    intros E. injection E as <- _. apply capDelay_upper. exact Hm.
Qed.

(** [TestBackoffImplementations], at an index where the products have
    overflowed. *)
Lemma GetDelay_never_exceeds_maxDelay_witness :
  LinearBackoff_GetDelay (NewLinearBackoff (100 * Millisecond) Second 5)
                         (2 ^ 40) <= Second
  /\ ExponentialBackoff_GetDelay
       (NewExponentialBackoff (100 * Millisecond) Second 5) 37
     = Some (-4702848726509551616)
  /\ -4702848726509551616 <= Second.
Proof.
  pose proof (GetDelay_never_exceeds_maxDelay (100 * Millisecond) Second 5
                (2 ^ 40) ltac:(unfold Second; lia)) as [Hl _].
  pose proof (GetDelay_never_exceeds_maxDelay (100 * Millisecond) Second 5
                37 ltac:(unfold Second; lia)) as (_ & He & _).
  split; [exact Hl|]. split; [reflexivity|].
  apply He. reflexivity.
Defined.

(** X12. Without overflow ([a' * b] fits) and with a base delay [b >= 0],
    the delays of [LinearBackoff] start at 0 for index 0, are never
    negative and never decrease as the attempt index grows. *)
Theorem LinearBackoff_delays_grow (b m : Duration) (n a a' : Z) :
  0 <= b -> 0 <= a <= a' -> a' * b <= max_int ->
  LinearBackoff_GetDelay (NewLinearBackoff b m n) 0 = 0
  /\ 0 <= LinearBackoff_GetDelay (NewLinearBackoff b m n) a
  /\ LinearBackoff_GetDelay (NewLinearBackoff b m n) a
     <= LinearBackoff_GetDelay (NewLinearBackoff b m n) a'.
Proof.
  intros Hb Ha Hfit. unfold LinearBackoff_GetDelay, mul64.
  cbn [lin_retryDelay lin_maxDelay].
  assert (Hab : 0 <= a * b <= a' * b) by nia.
  change (0 * b) with 0.
  rewrite !wrap64_id by (unfold in_int, min_int, max_int in *; lia).
  split; [| split].
  - destruct (capDelay_cases 0 m) as [[-> ?] | [-> ?]]; lia.
  - apply capDelay_nonneg. lia.
  - apply capDelay_mono. lia.
Qed.

Lemma LinearBackoff_delays_grow_witness :
  LinearBackoff_GetDelay readme_strategy 0 = 0
  /\ 0 <= LinearBackoff_GetDelay readme_strategy 3
  /\ LinearBackoff_GetDelay readme_strategy 3
     <= LinearBackoff_GetDelay readme_strategy 7.
Proof.
  apply (LinearBackoff_delays_grow (500 * Millisecond) (2 * Second) 5 3 7);
    unfold max_int, Millisecond; lia.
Defined.

(** X13. [ExponentialBackoff.GetDelay] panics exactly on a negative
    attempt index. Without overflow ([2^a' * b] fits) and with [b >= 0],
    index 0 gives the capped base delay and the delays are never negative
    and never decrease as the index grows. *)
Theorem ExponentialBackoff_delays_grow (b m : Duration) (n a a' : Z) :
  (ExponentialBackoff_GetDelay (NewExponentialBackoff b m n) a = None
   <-> a < 0)
  /\ (0 <= b -> 0 <= a <= a' -> 2 ^ a' * b <= max_int ->
      ExponentialBackoff_GetDelay (NewExponentialBackoff b m n) 0
      = Some (capDelay b m)
      /\ exists d d',
           ExponentialBackoff_GetDelay (NewExponentialBackoff b m n) a
           = Some d
           /\ ExponentialBackoff_GetDelay (NewExponentialBackoff b m n) a'
              = Some d'
           /\ 0 <= d <= d').
Proof.
  split.
  - unfold ExponentialBackoff_GetDelay, shl64.
    destruct (a <? 0) eqn:E.
    + apply Z.ltb_lt in E. split; auto.
    + apply Z.ltb_ge in E. split; [discriminate | lia].
  - intros Hb Ha Hfit.
    assert (Hp : 0 < 2 ^ a <= 2 ^ a').
    { split; [apply Z.pow_pos_nonneg; lia|].
      apply Z.pow_le_mono_r; lia. }
    assert (Hab : 0 <= 2 ^ a * b <= 2 ^ a' * b) by nia.
    assert (Hb' : b <= 2 ^ a' * b) by nia.
    unfold ExponentialBackoff_GetDelay.
    cbn [exp_retryDelay exp_maxDelay].
    rewrite !shl64_pow, !mul64_wrap_l by lia.
    rewrite !wrap64_id by (unfold in_int, min_int, max_int in *; lia).
    change (2 ^ 0 * b) with (1 * b). rewrite Z.mul_1_l.
    split; [reflexivity|].
    eexists. eexists. split; [reflexivity|]. split; [reflexivity|].
    split; [apply capDelay_nonneg | apply capDelay_mono]; lia.
Qed.

Lemma ExponentialBackoff_delays_grow_witness :
  (ExponentialBackoff_GetDelay
     (NewExponentialBackoff (100 * Millisecond) Second 5) (-1) = None
   <-> -1 < 0)
  /\ exists d d',
       ExponentialBackoff_GetDelay
         (NewExponentialBackoff (100 * Millisecond) Second 5) 2 = Some d
       /\ ExponentialBackoff_GetDelay
            (NewExponentialBackoff (100 * Millisecond) Second 5) 6 = Some d'
       /\ 0 <= d <= d'.
Proof.
  split.
  - apply (proj1 (ExponentialBackoff_delays_grow
                    (100 * Millisecond) Second 5 (-1) 0)).
  - apply (proj2 (ExponentialBackoff_delays_grow
                    (100 * Millisecond) Second 5 2 6));
      unfold max_int, Millisecond; lia.
Defined.

Lemma lcg_Intn_contract (src : Z) (n : int) :
  (n <= 0 -> lcg_Intn src n = None)
  /\ (0 < n -> exists r src', lcg_Intn src n = Some (r, src') /\ 0 <= r < n).
Proof.
  unfold lcg_Intn. destruct (n <=? 0) eqn:E.
  - apply Z.leb_le in E. split; [reflexivity | lia].
  - apply Z.leb_gt in E. split; [lia|]. intros _.
    eexists. eexists. split; [reflexivity|]. now apply Z.mod_pos_bound.
Qed.

(** X14. [RandomizedBackoff], for a source whose [Intn n] panics when
    [n <= 0] and otherwise returns a number in [0, n). Without overflow
    and with a base delay [b >= 0], [GetDelay a] returns a delay between 0
    and the delay of [LinearBackoff] for the same parameters and index;
    only the random source of the strategy changes. [GetDelay] panics on a
    negative index and on the largest [int], where [attempt+1] wraps. *)
Theorem RandomizedBackoff_delay_bounds
        (Rand : Type) (Intn : Rand -> int -> option (int * Rand))
        (rs : RandomizedBackoff Rand) (a : Z) :
  (forall src n,
     (n <= 0 -> Intn src n = None)
     /\ (0 < n -> exists r src', Intn src n = Some (r, src') /\ 0 <= r < n)) ->
  in_int a ->
  (0 <= rnd_retryDelay Rand rs -> 0 <= a < max_int ->
   a * rnd_retryDelay Rand rs <= max_int ->
   exists d rs',
     RandomizedBackoff_GetDelay Rand Intn rs a = Some (d, rs')
     /\ 0 <= d
        <= LinearBackoff_GetDelay
             (NewLinearBackoff (rnd_retryDelay Rand rs) (rnd_maxDelay Rand rs)
                               (rnd_attempts Rand rs)) a
     /\ rnd_retryDelay Rand rs' = rnd_retryDelay Rand rs
     /\ rnd_maxDelay Rand rs' = rnd_maxDelay Rand rs
     /\ rnd_attempts Rand rs' = rnd_attempts Rand rs)
  /\ (a < 0 \/ a = max_int ->
      RandomizedBackoff_GetDelay Rand Intn rs a = None).
Proof.
  intros HIntn Hin. split.
  - intros Hb Ha Hfit. unfold RandomizedBackoff_GetDelay.
    rewrite add64_succ by lia.
    destruct (proj2 (HIntn (rnd_rand Rand rs) (a + 1)) ltac:(lia))
      as (r & src' & -> & Hr).
    eexists. eexists. split; [reflexivity|].
    cbn [rnd_retryDelay rnd_maxDelay rnd_attempts].
    split; [| auto].
    unfold LinearBackoff_GetDelay, mul64. cbn [lin_retryDelay lin_maxDelay].
    assert (Hrb : 0 <= r * rnd_retryDelay Rand rs <= a * rnd_retryDelay Rand rs)
      by nia.
    rewrite !wrap64_id by (unfold in_int, min_int, max_int in *; lia).
    split; [apply capDelay_nonneg | apply capDelay_mono]; lia.
  - intros Ha. unfold RandomizedBackoff_GetDelay.
    assert (Hn : add64 a 1 <= 0).
    { destruct Ha as [Ha | ->].
      - unfold add64. rewrite wrap64_id; [lia|].
        unfold in_int, min_int, max_int in *. lia.
      - vm_compute. discriminate. }
    now rewrite (proj1 (HIntn (rnd_rand Rand rs) (add64 a 1)) Hn).
Qed.

Lemma RandomizedBackoff_delay_bounds_witness :
  (exists d rs',
     RandomizedBackoff_GetDelay Z lcg_Intn
       (MkRandomizedBackoff Z (100 * Millisecond) Second 5 42) 3
     = Some (d, rs')
     /\ 0 <= d
        <= LinearBackoff_GetDelay
             (NewLinearBackoff (100 * Millisecond) Second 5) 3
     /\ rnd_retryDelay Z rs' = 100 * Millisecond
     /\ rnd_maxDelay Z rs' = Second
     /\ rnd_attempts Z rs' = 5)
  /\ RandomizedBackoff_GetDelay Z lcg_Intn
       (MkRandomizedBackoff Z (100 * Millisecond) Second 5 42) max_int
     = None.
Proof.
  split.
  - refine (proj1 (RandomizedBackoff_delay_bounds Z lcg_Intn
              (MkRandomizedBackoff Z (100 * Millisecond) Second 5 42) 3
              lcg_Intn_contract _) _ _ _);
      unfold in_int, min_int, max_int; simpl; lia.
  - refine (proj2 (RandomizedBackoff_delay_bounds Z lcg_Intn
              (MkRandomizedBackoff Z (100 * Millisecond) Second 5 42) max_int
              lcg_Intn_contract _) _).
    + unfold in_int, min_int, max_int. lia.
    + right. reflexivity.
Defined.

(** * Further properties of the fatal wrapper *)

(** X15. [checkFatal] returns a non-nil [c] exactly when the first
    [*fatal] on the chain of the error has cause [c]: it never reports a
    cause that no [*fatal] on the chain carries, and it looks no further
    than the first one (for [EndRetry(EndRetry(c))] the answer is the
    inner wrapper). *)
Theorem checkFatal_fatal_iff (e c : error_value) :
  (checkFatal (Some e) = Some c <-> wraps_fatal e (Some c))
  /\ checkFatal (EndRetry (EndRetry (Some c))) = EndRetry (Some c).
Proof.
  split; [| reflexivity]. split.
  - unfold checkFatal. simpl. pose proof (As_chain_spec e) as Hs.
    destruct (As_chain e) as [f |]; [| discriminate].
    unfold Unwrap. intros E. now rewrite E in Hs.
  - apply checkFatal_wraps.
Qed.

Lemma Error_EndRetry_iter (c : error_value) (k : nat) :
  forall e, Nat.iter k EndRetry (Some c) = Some e -> Error e = Error c.
Proof.
  induction k as [| k IH]; intros e E.
  - injection E as <-. reflexivity.
  - change (Nat.iter (S k) EndRetry (Some c))
      with (EndRetry (Nat.iter k EndRetry (Some c))) in E.
    destruct (Nat.iter k EndRetry (Some c)) as [e' |] eqn:Ek.
    + unfold EndRetry in E. injection E as <-. simpl. now apply IH.
    + destruct k; simpl in Ek; discriminate.
Qed.

Lemma Error_panics_tower (e : error_value) :
  Error e = None -> exists k, Some e = Nat.iter (S k) EndRetry None.
Proof.
  revert e. fix IH 1. intros [s | msg inner | [c |]]; simpl.
  - discriminate.
  - discriminate.
  - intros E. destruct (IH c E) as (k & Hk). exists (S k).
    cbn [Nat.iter] in Hk |- *. now rewrite <- Hk.
  - intros _. exists O. reflexivity.
Qed.

Lemma Error_tower_panics (k : nat) :
  forall e, Some e = Nat.iter (S k) EndRetry None -> Error e = None.
Proof.
  induction k as [| k IH]; intros e E.
  - simpl in E. injection E as ->. reflexivity.
  - change (Nat.iter (S (S k)) EndRetry None)
      with (EndRetry (Nat.iter (S k) EndRetry None)) in E.
    destruct (Nat.iter (S k) EndRetry None) as [c |] eqn:Ec;
      [| discriminate].
    unfold EndRetry in E. injection E as ->. simpl. now apply IH.
Qed.

(** X16. The message of a fatal error is the message of its cause,
    through any number of [EndRetry] layers around a non-nil cause;
    [Error] panics exactly on the errors made by [EndRetry], once or
    several times, around nil. *)
Theorem fatal_Error_message (e : error_value) :
  (forall (c : error_value) (k : nat),
     Nat.iter k EndRetry (Some c) = Some e -> Error e = Error c)
  /\ (Error e = None <-> exists k, Some e = Nat.iter (S k) EndRetry None).
Proof.
  split.
  - intros c k. apply Error_EndRetry_iter.
  - split; [apply Error_panics_tower|].
    intros (k & Hk). now apply (Error_tower_panics k).
Qed.

Lemma fatal_Error_message_witness :
  Error (fatalPtr (Some (fatalPtr (Some fatal_cause)))) = Error fatal_cause
  /\ Error (fatalPtr (Some (fatalPtr None))) = None.
Proof.
  split.
  - apply (proj1 (fatal_Error_message
                    (fatalPtr (Some (fatalPtr (Some fatal_cause)))))
             fatal_cause 2%nat).
    reflexivity.
  - apply (proj2 (fatal_Error_message (fatalPtr (Some (fatalPtr None))))).
    exists 1%nat. reflexivity.
Defined.

Lemma checkFatal_fatal_iff_witness :
  checkFatal (Some (wrapError "context" (EndRetry (Some fatal_cause))))
  = Some fatal_cause.
Proof.
  apply (proj1 (checkFatal_fatal_iff
                  (wrapError "context" (EndRetry (Some fatal_cause)))
                  fatal_cause)).
  repeat constructor.
Defined.
